(** * filesystem-mcp-server: path validation and the edit_file engine

    A shallow embedding of [config.ts] (path validation) and of the tool
    handlers registered by [registerFileSystemTools], together with the
    JavaScript string and Node [path] primitives they call. *)

From Stdlib Require Import String Ascii.
From Stdlib Require Import List NArith Bool Arith Lia.
Import ListNotations.

(** ** JavaScript strings

    A JavaScript string is a finite sequence of UTF-16 code units; all
    the primitives used by the server ([length], [!==], [includes],
    [startsWith], [replaceAll], [trim]) work on code units. *)

Module JS.

Definition jsstring := list N.

(** Literals: an ASCII literal is read code unit by code unit. *)
Definition lit (s : string) : jsstring :=
  map N_of_ascii (list_ascii_of_string s).

Definition DQUOTE : N := 34.
Definition DOLLAR : N := 36.
Definition AMPERSAND : N := 38.
Definition SQUOTE : N := 39.
Definition DOT : N := 46.
Definition SLASH : N := 47.
Definition BACKTICK : N := 96.

(** [a === b] on strings. *)
Fixpoint eqb (a b : jsstring) : bool :=
  match a, b with
  | [], [] => true
  | x :: a', y :: b' => N.eqb x y && eqb a' b'
  | _, _ => false
  end.

(** [s.startsWith(p)]. *)
Fixpoint startsWith (s p : jsstring) {struct p} : bool :=
  match p, s with
  | [], _ => true
  | x :: p', y :: s' => N.eqb x y && startsWith s' p'
  | _ :: _, [] => false
  end.

(** Offset of the first occurrence of [search] in [s], scanning from the
    left; the empty string occurs at offset 0 of every string. *)
Fixpoint indexOf (s search : jsstring) : option nat :=
  if startsWith s search then Some 0
  else match s with
       | [] => None
       | _ :: s' => option_map S (indexOf s' search)
       end.

(** [s.includes(search)]. *)
Definition includes (s search : jsstring) : bool :=
  match indexOf s search with Some _ => true | None => false end.

(** ECMAScript [GetSubstitution] for a string pattern (no capture groups):
    [$$] is a dollar sign, [$&] the matched text, [$`] the text before the
    match and [$'] the text after it; every other code unit, including a
    dollar sign followed by anything else, stands for itself. *)
Fixpoint GetSubstitution (matched before after template : jsstring) : jsstring :=
  match template with
  | [] => []
  | c :: rest =>
      if N.eqb c DOLLAR then
        match rest with
        | d :: rest' =>
            if N.eqb d DOLLAR then DOLLAR :: GetSubstitution matched before after rest'
            else if N.eqb d AMPERSAND then matched ++ GetSubstitution matched before after rest'
            else if N.eqb d BACKTICK then before ++ GetSubstitution matched before after rest'
            else if N.eqb d SQUOTE then after ++ GetSubstitution matched before after rest'
            else c :: GetSubstitution matched before after rest
        | [] => [c]
        end
      else c :: GetSubstitution matched before after rest
  end.

(** One left-to-right pass of [whole.replaceAll(search, replaceValue)].
    [s] is the part of [whole] from index [pos] on; [skip] counts the code
    units of the current match that are still to be stepped over.  A match
    is looked for only where no earlier match is still running, and after
    an empty match the scan advances by one code unit, as the ECMAScript
    algorithm does ([advanceBy = max(1, searchLength)]). *)
Fixpoint replaceAll_scan (whole search replaceValue : jsstring)
         (pos skip : nat) (s : jsstring) : jsstring :=
  match skip with
  | S k =>
      match s with
      | [] => []
      | _ :: s' => replaceAll_scan whole search replaceValue (S pos) k s'
      end
  | O =>
      if startsWith s search then
        GetSubstitution search (firstn pos whole)
                        (skipn (pos + length search) whole) replaceValue
        ++ match s with
           | [] => []
           | c :: s' =>
               match search with
               | [] => c :: replaceAll_scan whole search replaceValue (S pos) 0 s'
               | _ :: search' =>
                   replaceAll_scan whole search replaceValue (S pos) (length search') s'
               end
           end
      else
        match s with
        | [] => []
        | c :: s' => c :: replaceAll_scan whole search replaceValue (S pos) 0 s'
        end
  end.

(** [s.replaceAll(search, replaceValue)] with string arguments. *)
Definition replaceAll (s search replaceValue : jsstring) : jsstring :=
  replaceAll_scan s search replaceValue 0 0 s.

(** ECMAScript WhiteSpace and LineTerminator code points, the ones
    [trim] strips. *)
Definition isWhiteSpace (c : N) : bool :=
  (N.leb 9 c && N.leb c 13) || N.eqb c 32 || N.eqb c 160 || N.eqb c 5760
  || (N.leb 8192 c && N.leb c 8202) || N.eqb c 8232 || N.eqb c 8233
  || N.eqb c 8239 || N.eqb c 8287 || N.eqb c 12288 || N.eqb c 65279.

Fixpoint trimStart (s : jsstring) : jsstring :=
  match s with
  | c :: s' => if isWhiteSpace c then trimStart s' else s
  | [] => []
  end.

(** [s.trim()]. *)
Definition trim (s : jsstring) : jsstring :=
  rev (trimStart (rev (trimStart s))).

(** [sep]-separated concatenation, [parts.join(sep)]. *)
Fixpoint join (sep : jsstring) (parts : list jsstring) : jsstring :=
  match parts with
  | [] => []
  | [p] => p
  | p :: rest => p ++ sep ++ join sep rest
  end.

End JS.

Import JS.

(** ** Node's [path] module, POSIX flavour

    The server runs with [projectRoot = '/home/project'], so [path] is
    [path.posix].  The functions below give what Node's implementation
    computes: a path is cut into its [/]-separated segments, and the
    segments are handled as Node's character loops handle them. *)

Module path.

Section WithCwd.

(** [process.cwd()], which [path.resolve] falls back to when none of its
    arguments is absolute. *)
Variable cwd : jsstring.

(** The segments of [s] between its [/] separators (["a//b/"] has the
    segments ["a"], empty, ["b"], empty). *)
Fixpoint split_slash (s : jsstring) : list jsstring :=
  match s with
  | [] => [[]]
  | c :: s' =>
      if N.eqb c SLASH then [] :: split_slash s'
      else match split_slash s' with
           | seg :: segs => (c :: seg) :: segs
           | [] => [[c]]
           end
  end.

(** One segment of [normalizeString]: [res] is the stack of segments kept
    so far, innermost first.  Empty and ["."] segments are dropped; [".."]
    pops the last kept segment, or is kept itself when there is nothing
    to pop and [allowAboveRoot] holds. *)
Definition normalize_step (allowAboveRoot : bool)
           (res : list jsstring) (seg : jsstring) : list jsstring :=
  if eqb seg [] || eqb seg [DOT] then res
  else if eqb seg [DOT; DOT] then
    match res with
    | top :: res' =>
        if eqb top [DOT; DOT] then (if allowAboveRoot then seg :: res else res)
        else res'
    | [] => if allowAboveRoot then [seg] else []
    end
  else seg :: res.

Definition normalize_segments (allowAboveRoot : bool) (p : jsstring) : list jsstring :=
  rev (fold_left (normalize_step allowAboveRoot) (split_slash p) []).

(** [normalizeString(path, allowAboveRoot, '/', isPosixPathSeparator)]. *)
Definition normalizeString (p : jsstring) (allowAboveRoot : bool) : jsstring :=
  join [SLASH] (normalize_segments allowAboveRoot p).

(** [path.isAbsolute(p)]. *)
Definition isAbsolute (p : jsstring) : bool :=
  match p with
  | c :: _ => N.eqb c SLASH
  | [] => false
  end.

(** The right-to-left loop of [path.resolve]: [args] holds the arguments
    still to be visited, last one first; the loop stops at the first
    absolute argument and otherwise ends with [cwd]. *)
Fixpoint resolve_loop (args : list jsstring) (resolvedPath : jsstring)
  : jsstring * bool :=
  match args with
  | [] =>
      match cwd with
      | [] => (resolvedPath, false)
      | _ :: _ => (cwd ++ [SLASH] ++ resolvedPath, isAbsolute cwd)
      end
  | p :: args' =>
      match p with
      | [] => resolve_loop args' resolvedPath
      | _ :: _ =>
          let resolvedPath' := p ++ [SLASH] ++ resolvedPath in
          if isAbsolute p then (resolvedPath', true)
          else resolve_loop args' resolvedPath'
      end
  end.

(** [path.resolve(...args)]. *)
Definition resolve (args : list jsstring) : jsstring :=
  let (resolvedPath, resolvedAbsolute) := resolve_loop (rev args) [] in
  let normalized := normalizeString resolvedPath (negb resolvedAbsolute) in
  if resolvedAbsolute then SLASH :: normalized
  else match normalized with
       | [] => [DOT]
       | _ :: _ => normalized
       end.

(** The non-empty segments of a path. *)
Definition segments (p : jsstring) : list jsstring :=
  filter (fun seg => negb (eqb seg [])) (split_slash p).

(** After the common leading segments: one [".."] for each segment left
    in [from], then what is left of [to]. *)
Fixpoint relative_segments (from to : list jsstring) : list jsstring :=
  match from, to with
  | f :: from', t :: to' =>
      if eqb f t then relative_segments from' to'
      else map (fun _ => [DOT; DOT]) from ++ to
  | _, _ => map (fun _ => [DOT; DOT]) from ++ to
  end.

(** [path.relative(from, to)]: both paths are resolved, the common
    leading segments are dropped, and the result climbs out of what is
    left of [from] before descending into what is left of [to].  (Node
    compares the two resolved paths code unit by code unit from index 1
    and remembers the last common separator; on absolute paths, the only
    ones the server passes, that is the comparison of their segments.) *)
Definition relative (from to : jsstring) : jsstring :=
  if eqb from to then []
  else
    let from' := resolve [from] in
    let to' := resolve [to] in
    if eqb from' to' then []
    else join [SLASH] (relative_segments (segments from') (segments to')).

Fixpoint dropWhile (f : N -> bool) (s : jsstring) : jsstring :=
  match s with
  | c :: s' => if f c then dropWhile f s' else s
  | [] => []
  end.

(** [path.dirname(p)]: scanning from the end and never looking at index 0,
    trailing separators are skipped, then the last segment, and the path
    is cut at the separator found there. *)
Definition dirname (p : jsstring) : jsstring :=
  match p with
  | [] => [DOT]
  | c0 :: rest =>
      let hasRoot := N.eqb c0 SLASH in
      let scanned :=
        dropWhile (fun c => negb (N.eqb c SLASH))
                  (dropWhile (fun c => N.eqb c SLASH) (rev rest)) in
      match scanned with
      | [] => if hasRoot then [SLASH] else [DOT]
      | _ :: before =>
          if hasRoot && Nat.eqb (length scanned) 1 then [SLASH; SLASH]
          else c0 :: rev before
      end
  end.

(** [path.normalize(p)]. *)
Definition normalize (p : jsstring) : jsstring :=
  match p with
  | [] => [DOT]
  | _ :: _ =>
      let isAbs := isAbsolute p in
      let trailingSeparator := N.eqb (last p 0%N) SLASH in
      let p' := normalizeString p (negb isAbs) in
      match p' with
      | [] => if isAbs then [SLASH]
              else if trailingSeparator then [DOT; SLASH] else [DOT]
      | _ :: _ =>
          let p'' := if trailingSeparator then p' ++ [SLASH] else p' in
          if isAbs then SLASH :: p'' else p''
      end
  end.

(** [path.join(...args)]. *)
Definition join (args : list jsstring) : jsstring :=
  match filter (fun a => negb (eqb a [])) args with
  | [] => [DOT]
  | parts => normalize (JS.join [SLASH] parts)
  end.

End WithCwd.

End path.

(** ** Errors and completions *)

(** A thrown JavaScript [Error]: its [message], and the [code] that Node's
    file-system errors carry ([ENOENT], [ENOTDIR], ...). *)
Record JsError := mkError { message : jsstring; code : option jsstring }.

(** [new Error(msg)]. *)
Definition Error (msg : jsstring) : JsError := mkError msg None.

(** How a call ends: with a value, or with a thrown error. *)
Inductive Completion (A : Type) : Type :=
| Return (a : A)
| Throw (e : JsError).

Arguments Return {A} a.
Arguments Throw {A} e.

(** ** config.ts *)

Section Config.

Variable cwd : jsstring.

Definition projectRoot : jsstring := lit "/home/project".

Definition ALLOWED_DIRS : list jsstring :=
  [ path.resolve cwd [projectRoot; lit "data"] ].

Definition invalidPathError : JsError :=
  Error (lit "Invalid path provided: Path cannot be empty.").

Definition accessDeniedError (userPath : jsstring) : JsError :=
  Error (lit "Access denied: Path '" ++ userPath
         ++ lit "' is outside the allowed directories.").

(** The test inside [ALLOWED_DIRS.some(...)]. *)
Definition isInside (allowedDir resolvedPath : jsstring) : bool :=
  let relative := path.relative cwd allowedDir resolvedPath in
  negb (startsWith relative (lit "..")) && negb (path.isAbsolute relative).

Definition resolveAndValidatePath (userPath : jsstring) : Completion jsstring :=
  if eqb (trim userPath) [] then Throw invalidPathError
  else
    let resolvedPath := path.resolve cwd [projectRoot; userPath] in
    let isAllowed :=
      existsb (fun allowedDir => isInside allowedDir resolvedPath) ALLOWED_DIRS in
    if negb isAllowed then Throw (accessDeniedError userPath)
    else Return resolvedPath.

Definition validateSourcePath (sourcePath : jsstring) : Completion jsstring :=
  resolveAndValidatePath sourcePath.

End Config.

(** ** Storage

    [node:fs/promises] and [glob] are the server's storage layer.  The
    handlers are modelled over any implementation of the calls they make;
    a call takes the current storage and ends with a value or a thrown
    error, and the mutating calls also give the storage they leave. *)

Record Dirent := mkDirent { name : jsstring; isDirectory : bool }.

(** What [get_file_info] reads from an [fs.Stats], with the numbers and
    dates already rendered as the handler prints them. *)
Record Stats := mkStats {
  statsIsDirectory : bool;
  size : jsstring;          (* [stats.size] in decimal *)
  birthtime : jsstring;     (* [stats.birthtime.toISOString()] *)
  mtime : jsstring;         (* [stats.mtime.toISOString()] *)
  atime : jsstring;         (* [stats.atime.toISOString()] *)
  mode : jsstring           (* [stats.mode.toString(8)] *)
}.

Class FileSystem (S : Type) := {
  readFile : jsstring -> S -> Completion jsstring;
  writeFile : jsstring -> jsstring -> S -> Completion unit * S;
  (* [fs.mkdir(p, { recursive: true })] *)
  mkdir : jsstring -> S -> Completion unit * S;
  (* [fs.readdir(p, { withFileTypes: true })] *)
  readdir : jsstring -> S -> Completion (list Dirent);
  access : jsstring -> S -> Completion unit;
  rename : jsstring -> jsstring -> S -> Completion unit * S;
  stat : jsstring -> S -> Completion Stats;
  (* [glob(pattern, { cwd, ignore, dot: true, nocase: true, ... })] *)
  glob : jsstring -> jsstring -> list jsstring -> S -> Completion (list jsstring)
}.

(** The storage calls a handler has made, in order. *)
Inductive FsCall :=
| CallReadFile (p : jsstring)
| CallWriteFile (p content : jsstring)
| CallMkdir (p : jsstring)
| CallReaddir (p : jsstring)
| CallAccess (p : jsstring)
| CallRename (src dst : jsstring)
| CallStat (p : jsstring)
| CallGlob (pattern dir : jsstring) (ignore : list jsstring).

Record World (S : Type) := mkWorld { store : S; calls : list FsCall }.

Arguments mkWorld {S} store calls.
Arguments store {S} w.
Arguments calls {S} w.

(** An [async] function body: it runs from a world to a completion and
    the world it leaves. *)
Definition Async (S A : Type) : Type := World S -> Completion A * World S.

Declare Scope async_scope.
Delimit Scope async_scope with async.

Section AsyncMonad.

Context {S : Type} `{FileSystem S}.

Definition ret {A} (a : A) : Async S A := fun w => (Return a, w).

Definition throw {A} (e : JsError) : Async S A := fun w => (Throw e, w).

Definition bind {A B} (t : Async S A) (k : A -> Async S B) : Async S B :=
  fun w =>
    match t w with
    | (Return a, w') => k a w'
    | (Throw e, w') => (Throw e, w')
    end.

(** [try { body } catch (error) { handler }]. *)
Definition try_catch {A} (body : Async S A) (handler : JsError -> Async S A) : Async S A :=
  fun w =>
    match body w with
    | (Return a, w') => (Return a, w')
    | (Throw e, w') => handler e w'
    end.

(** A synchronous call that may throw. *)
Definition lift {A} (c : Completion A) : Async S A := fun w => (c, w).

Definition logCall (c : FsCall) (w : World S) (s : S) : World S :=
  mkWorld s (calls w ++ [c]).

Definition fs_readFile (p : jsstring) : Async S jsstring :=
  fun w => (readFile p (store w), logCall (CallReadFile p) w (store w)).

Definition fs_writeFile (p content : jsstring) : Async S unit :=
  fun w => let (r, s) := writeFile p content (store w) in
           (r, logCall (CallWriteFile p content) w s).

Definition fs_mkdir (p : jsstring) : Async S unit :=
  fun w => let (r, s) := mkdir p (store w) in (r, logCall (CallMkdir p) w s).

Definition fs_readdir (p : jsstring) : Async S (list Dirent) :=
  fun w => (readdir p (store w), logCall (CallReaddir p) w (store w)).

Definition fs_access (p : jsstring) : Async S unit :=
  fun w => (access p (store w), logCall (CallAccess p) w (store w)).

Definition fs_rename (src dst : jsstring) : Async S unit :=
  fun w => let (r, s) := rename src dst (store w) in
           (r, logCall (CallRename src dst) w s).

Definition fs_stat (p : jsstring) : Async S Stats :=
  fun w => (stat p (store w), logCall (CallStat p) w (store w)).

Definition fs_glob (pattern dir : jsstring) (ignore : list jsstring)
  : Async S (list jsstring) :=
  fun w => (glob pattern dir ignore (store w),
            logCall (CallGlob pattern dir ignore) w (store w)).

End AsyncMonad.

Notation "x <- t ;; k" := (bind t (fun x => k))
  (at level 61, t at next level, right associativity) : async_scope.
Notation "t ;;; k" := (bind t (fun _ => k))
  (at level 61, right associativity) : async_scope.
Notation "'try' body 'catch' handler" := (try_catch body handler)
  (at level 62, body at level 61, handler at level 61) : async_scope.

(** ** The edit loop of [edit_file] *)

Record Edit := mkEdit { oldText : jsstring; newText : jsstring }.

(** The variables the loop updates.  ([currentContent], the content read
    from the file, is never assigned after the read.) *)
Record EditState := mkEditState {
  modifiedContent : jsstring;
  changesMade : bool;
  appliedEditsInfo : list jsstring
}.

Definition NL : jsstring := [10%N].

Definition quoted (s : jsstring) : jsstring := [DQUOTE] ++ s ++ [DQUOTE].

Definition replacedInfo (edit : Edit) : jsstring :=
  lit "Replaced all occurrences of " ++ quoted (oldText edit)
  ++ lit " with " ++ quoted (newText edit) ++ lit ".".

Definition removedInfo (edit : Edit) : jsstring :=
  lit "Note: " ++ quoted (oldText edit)
  ++ lit " was present initially but removed by prior edits.".

Definition skippedInfo (edit : Edit) : jsstring :=
  lit "Skipped: " ++ quoted (oldText edit) ++ lit " not found.".

(** The body of [for (const edit of edits)]. *)
Definition edit_step (currentContent : jsstring) (st : EditState) (edit : Edit)
  : EditState :=
  let originalLength := length (modifiedContent st) in
  let modifiedContent' :=
    replaceAll (modifiedContent st) (oldText edit) (newText edit) in
  if negb (Nat.eqb (length modifiedContent') originalLength)
     || includes currentContent (oldText edit)
  then
    if negb (eqb modifiedContent'
                 (replaceAll currentContent (oldText edit) (newText edit)))
    then mkEditState modifiedContent' true
                     (appliedEditsInfo st ++ [replacedInfo edit])
    else if negb (includes modifiedContent' (oldText edit))
            && includes currentContent (oldText edit)
    then mkEditState modifiedContent' (changesMade st)
                     (appliedEditsInfo st ++ [removedInfo edit])
    else if negb (includes currentContent (oldText edit))
    then mkEditState modifiedContent' (changesMade st)
                     (appliedEditsInfo st ++ [skippedInfo edit])
    else mkEditState modifiedContent' (changesMade st) (appliedEditsInfo st)
  else mkEditState modifiedContent' (changesMade st)
                   (appliedEditsInfo st ++ [skippedInfo edit]).

Definition edit_loop (currentContent : jsstring) (edits : list Edit) : EditState :=
  fold_left (edit_step currentContent) edits
            (mkEditState currentContent false []).

(** The three outcomes the specification distinguishes, and the line
    [appliedEditsInfo] carries for each. *)
Inductive EditOutcome := Applied | NotFound | SupersededByPriorEdit.

Definition outcomeInfo (o : EditOutcome) (edit : Edit) : jsstring :=
  match o with
  | Applied => replacedInfo edit
  | SupersededByPriorEdit => removedInfo edit
  | NotFound => skippedInfo edit
  end.

(** ** The tool handlers of [registerFileSystemTools] *)

(** What a handler returns: the text of its single content block, and
    the [isError] flag (absent on success). *)
Record ToolResult := mkToolResult { text : jsstring; isError : bool }.

Definition okResult (t : jsstring) : ToolResult := mkToolResult t false.

(** [createErrorResult(message)]; the [console.error] line is not modelled. *)
Definition createErrorResult (msg : jsstring) : ToolResult :=
  mkToolResult (lit "Error: " ++ msg) true.

Definition hasCode (error : JsError) (c : string) : bool :=
  match code error with
  | Some c' => eqb c' (lit c)
  | None => false
  end.

(** One settled promise of [Promise.allSettled]. *)
Inductive Settled (A : Type) : Type :=
| fulfilled (value : A)
| rejected (reason : JsError).

Arguments fulfilled {A} value.
Arguments rejected {A} reason.

(** The object each [read_multiple_files] promise resolves to:
    [{ path, success: true, content }] or [{ path, success: false, error }]. *)
Inductive ReadAttempt :=
| ReadSuccess (path content : jsstring)
| ReadFailure (path error : jsstring).

Open Scope async_scope.

Section Tools.

Context {S : Type} `{FileSystem S}.

Variable cwd : jsstring.

(** 1. [read_file]. *)
Definition read_file (userPath : jsstring) : Async S ToolResult :=
  try (filePath <- lift (resolveAndValidatePath cwd userPath) ;;
       content <- fs_readFile filePath ;;
       ret (okResult content))
  catch (fun error =>
    ret (createErrorResult
           (lit "Failed to read file '" ++ userPath ++ lit "'. " ++ message error))).

(** 2. [read_multiple_files]: the function mapped over [userPaths]. *)
Definition read_attempt (userPath : jsstring) : Async S ReadAttempt :=
  try (filePath <- lift (resolveAndValidatePath cwd userPath) ;;
       content <- fs_readFile filePath ;;
       ret (ReadSuccess userPath content))
  catch (fun error => ret (ReadFailure userPath (message error))).

(** [Promise.allSettled]: every promise is run to its end and its outcome
    kept at the position of the promise.  The promises here only read, so
    running them one after the other gives what any interleaving gives. *)
Fixpoint allSettled {A} (promises : list (Async S A)) : Async S (list (Settled A)) :=
  match promises with
  | [] => ret []
  | p :: rest =>
      fun w =>
        let (r, w') := p w in
        let settled := match r with
                       | Return v => fulfilled v
                       | Throw e => rejected e
                       end in
        (results <- allSettled rest ;; ret (settled :: results)) w'
  end.

(** The block [results.map] builds for one settled promise. *)
Definition read_block (result : Settled ReadAttempt) : jsstring :=
  match result with
  | fulfilled (ReadSuccess p content) =>
      lit "--- File: " ++ p ++ lit " ---" ++ NL ++ content ++ NL
      ++ lit "--- End: " ++ p ++ lit " ---"
  | fulfilled (ReadFailure p error) =>
      lit "--- File: " ++ p ++ lit " ---" ++ NL ++ lit "Error: " ++ error ++ NL
      ++ lit "--- End: " ++ p ++ lit " ---"
  | rejected _ =>
      lit "--- File: [Unknown Path] ---" ++ NL
      ++ lit "Error: Unexpected issue processing this path." ++ NL
      ++ lit "--- End: [Unknown Path] ---"
  end.

Definition read_multiple_files (userPaths : list jsstring) : Async S ToolResult :=
  results <- allSettled (map read_attempt userPaths) ;;
  let outputText := JS.join (NL ++ NL) (map read_block results) in
  ret (okResult outputText).

(** 3. [write_file]. *)
Definition write_file (userPath content : jsstring) : Async S ToolResult :=
  try (filePath <- lift (resolveAndValidatePath cwd userPath) ;;
       let dirPath := path.dirname filePath in
       fs_mkdir dirPath ;;;
       fs_writeFile filePath content ;;;
       ret (okResult (lit "Successfully wrote content to '" ++ userPath ++ lit "'.")))
  catch (fun error =>
    ret (createErrorResult
           (lit "Failed to write file '" ++ userPath ++ lit "'. " ++ message error))).

(** 4. [edit_file]. *)
Definition infoLines (st : EditState) : jsstring :=
  JS.join NL (appliedEditsInfo st).

Definition dryRunNoChangeText (userPath : jsstring) (st : EditState) : jsstring :=
  lit "Dry run for '" ++ userPath
  ++ lit "': No changes would be made based on the provided edits."
  ++ NL ++ NL ++ lit "Applied Edits Info:" ++ NL ++ infoLines st.

Definition dryRunChangeText (userPath : jsstring) (st : EditState) : jsstring :=
  lit "Dry run for '" ++ userPath ++ lit "'. Changes would be applied."
  ++ NL ++ NL ++ lit "Applied Edits Info:" ++ NL ++ infoLines st
  ++ NL ++ NL ++ lit "--- Potential New Content ---" ++ NL ++ modifiedContent st.

Definition noChangeText (userPath : jsstring) (st : EditState) : jsstring :=
  lit "No changes applied to '" ++ userPath
  ++ lit "' as edits resulted in no modifications."
  ++ NL ++ NL ++ lit "Applied Edits Info:" ++ NL ++ infoLines st.

Definition editedText (userPath : jsstring) (st : EditState) : jsstring :=
  lit "Successfully edited '" ++ userPath ++ lit "'."
  ++ NL ++ NL ++ lit "Applied Edits Info:" ++ NL ++ infoLines st.

Definition edit_file (userPath : jsstring) (edits : list Edit) (dryRun : bool)
  : Async S ToolResult :=
  match resolveAndValidatePath cwd userPath with
  | Throw error =>
      ret (createErrorResult
             (lit "Invalid path '" ++ userPath ++ lit "'. " ++ message error))
  | Return filePath =>
      try (currentContent <- fs_readFile filePath ;;
           let st := edit_loop currentContent edits in
           if dryRun then
             if negb (changesMade st)
             then ret (okResult (dryRunNoChangeText userPath st))
             else ret (okResult (dryRunChangeText userPath st))
           else
             if negb (changesMade st)
             then ret (okResult (noChangeText userPath st))
             else
               fs_writeFile filePath (modifiedContent st) ;;;
               ret (okResult (editedText userPath st)))
      catch (fun error =>
        if hasCode error "ENOENT"
        then ret (createErrorResult (lit "File not found at '" ++ userPath ++ lit "'."))
        else ret (createErrorResult
                    (lit "Failed to edit file '" ++ userPath ++ lit "'. "
                     ++ message error)))
  end.

(** 5. [create_directory]. *)
Definition ensuredText (userPath : jsstring) : jsstring :=
  lit "Directory '" ++ userPath ++ lit "' ensured.".

(** The parent the fallback of [create_directory] checks. *)
Definition parentPath (userPath : jsstring) : jsstring :=
  let parentUserPath := path.dirname userPath in
  if eqb parentUserPath (lit ".") then lit "/home/project" else parentUserPath.

Definition create_directory (userPath : jsstring) : Async S ToolResult :=
  try (dirPath <- lift (resolveAndValidatePath cwd userPath) ;;
       fs_mkdir dirPath ;;;
       ret (okResult (ensuredText userPath)))
  catch (fun error =>
    if includes (message error) (lit "Access denied") then
      try (lift (resolveAndValidatePath cwd (parentPath userPath ++ lit "/dummy")) ;;;
           let dirPath := path.resolve cwd [lit "/home/project"; userPath] in
           fs_mkdir dirPath ;;;
           ret (okResult (ensuredText userPath)))
      catch (fun parentError =>
        ret (createErrorResult
               (lit "Failed to create directory '" ++ userPath
                ++ lit "'. Cannot create directories outside allowed paths. "
                ++ message parentError)))
    else
      ret (createErrorResult
             (lit "Failed to create directory '" ++ userPath ++ lit "'. "
              ++ message error))).

(** 6. [list_directory]. *)
Definition list_directory (userPath : jsstring) : Async S ToolResult :=
  try (dirPath <- lift (resolveAndValidatePath cwd userPath) ;;
       entries <- fs_readdir dirPath ;;
       let listing :=
         map (fun entry =>
                (if isDirectory entry then lit "[DIR] " else lit "[FILE]")
                ++ lit " " ++ name entry) entries in
       let output :=
         match listing with
         | [] => lit "Directory is empty."
         | _ :: _ => JS.join NL listing
         end in
       ret (okResult (lit "Contents of '" ++ userPath ++ lit "':" ++ NL ++ output)))
  catch (fun error =>
    if hasCode error "ENOENT"
    then ret (createErrorResult
                (lit "Directory not found at '" ++ userPath ++ lit "'."))
    else if hasCode error "ENOTDIR"
    then ret (createErrorResult
                (lit "Path '" ++ userPath ++ lit "' is a file, not a directory."))
    else ret (createErrorResult
                (lit "Failed to list directory '" ++ userPath ++ lit "'. "
                 ++ message error))).

(** 7. [move_file].  The two inner [try] blocks return from the handler;
    [inr] carries such an early result past the rest of the body. *)
Definition move_file (userSource userDest : jsstring) : Async S ToolResult :=
  try (sourcePath <- lift (validateSourcePath cwd userSource) ;;
       destPath <- lift (resolveAndValidatePath cwd userDest) ;;
       sourceCheck <-
         (try (fs_access sourcePath ;;; ret (inl tt))
          catch (fun _ =>
            ret (inr (createErrorResult
                        (lit "Source path '" ++ userSource
                         ++ lit "' does not exist or is not accessible."))))) ;;
       match sourceCheck with
       | inr early => ret early
       | inl _ =>
           destCheck <-
             (try (fs_access destPath ;;;
                   ret (inr (createErrorResult
                               (lit "Destination path '" ++ userDest
                                ++ lit "' already exists. Cannot overwrite."))))
              catch (fun _ => ret (inl tt))) ;;
           match destCheck with
           | inr early => ret early
           | inl _ =>
               let destDirPath := path.dirname destPath in
               fs_mkdir destDirPath ;;;
               fs_rename sourcePath destPath ;;;
               ret (okResult (lit "Successfully moved '" ++ userSource
                              ++ lit "' to '" ++ userDest ++ lit "'."))
           end
       end)
  catch (fun error =>
    ret (createErrorResult
           (lit "Failed to move '" ++ userSource ++ lit "' to '" ++ userDest
            ++ lit "'. " ++ message error))).

(** 8. [search_files]. *)
Definition search_files (userPath pattern : jsstring) (excludePatterns : list jsstring)
  : Async S ToolResult :=
  try (startPath <- lift (resolveAndValidatePath cwd userPath) ;;
       statCheck <-
         (try (stats <- fs_stat startPath ;;
               if negb (statsIsDirectory stats)
               then ret (inr (createErrorResult
                                (lit "Search path '" ++ userPath
                                 ++ lit "' is not a directory.")))
               else ret (inl tt))
          catch (fun statError =>
            if hasCode statError "ENOENT"
            then ret (inr (createErrorResult
                             (lit "Search path '" ++ userPath
                              ++ lit "' does not exist.")))
            else throw statError)) ;;
       match statCheck with
       | inr early => ret early
       | inl _ =>
           results <- fs_glob pattern startPath excludePatterns ;;
           let fullPaths := map (fun res => path.join [userPath; res]) results in
           let output :=
             match fullPaths with
             | _ :: _ =>
                 lit "Search results for pattern '" ++ pattern ++ lit "' in '"
                 ++ userPath ++ lit "':" ++ NL ++ JS.join NL fullPaths
             | [] =>
                 lit "No files or directories found matching pattern '" ++ pattern
                 ++ lit "' in '" ++ userPath ++ lit "'."
             end in
           ret (okResult output)
       end)
  catch (fun error =>
    ret (createErrorResult
           (lit "Failed to search in '" ++ userPath ++ lit "'. " ++ message error))).

(** 9. [get_file_info]. *)
Definition get_file_info (userPath : jsstring) : Async S ToolResult :=
  try (filePath <- lift (resolveAndValidatePath cwd userPath) ;;
       stats <- fs_stat filePath ;;
       let outputText :=
         trim (NL
               ++ lit "Path: " ++ userPath ++ NL
               ++ lit "Type: "
               ++ (if statsIsDirectory stats then lit "directory" else lit "file") ++ NL
               ++ lit "Size: " ++ size stats ++ lit " bytes" ++ NL
               ++ lit "Created: " ++ birthtime stats ++ NL
               ++ lit "Modified: " ++ mtime stats ++ NL
               ++ lit "Accessed: " ++ atime stats ++ NL
               ++ lit "Permissions (octal): " ++ mode stats ++ NL
               ++ lit "        ") in
       ret (okResult outputText))
  catch (fun error =>
    if hasCode error "ENOENT"
    then ret (createErrorResult
                (lit "File or directory not found at '" ++ userPath ++ lit "'."))
    else ret (createErrorResult
                (lit "Failed to get info for '" ++ userPath ++ lit "'. "
                 ++ message error))).

End Tools.

(** ** An in-memory storage

    A small implementation of [FileSystem], used to run the handlers on
    concrete inputs: a table from absolute paths to files and directories.
    Parent directories are not tracked. *)

Module MemFs.

Inductive Node := FileNode (content : jsstring) | DirNode.

Definition t := list (jsstring * Node).

Fixpoint lookup (p : jsstring) (fs : t) : option Node :=
  match fs with
  | [] => None
  | (q, n) :: fs' => if eqb q p then Some n else lookup p fs'
  end.

Definition update (p : jsstring) (n : Node) (fs : t) : t :=
  (p, n) :: filter (fun e => negb (eqb (fst e) p)) fs.

Definition remove (p : jsstring) (fs : t) : t :=
  filter (fun e => negb (eqb (fst e) p)) fs.

Definition fsError (c : string) (p : jsstring) : JsError :=
  mkError (lit c ++ lit ": '" ++ p ++ lit "'") (Some (lit c)).

Definition childName (dir : jsstring) (e : jsstring * Node) : option Dirent :=
  let p := fst e in
  if startsWith p (dir ++ [SLASH]) then
    let rest := skipn (length dir + 1) p in
    if negb (eqb rest []) && forallb (fun c => negb (N.eqb c SLASH)) rest
    then Some (mkDirent rest
                        match snd e with DirNode => true | FileNode _ => false end)
    else None
  else None.

Fixpoint children (dir : jsstring) (fs : t) : list Dirent :=
  match fs with
  | [] => []
  | e :: fs' =>
      match childName dir e with
      | Some d => d :: children dir fs'
      | None => children dir fs'
      end
  end.

#[global] Instance fileSystem : FileSystem t := {
  readFile p fs :=
    match lookup p fs with
    | Some (FileNode c) => Return c
    | Some DirNode => Throw (fsError "EISDIR" p)
    | None => Throw (fsError "ENOENT" p)
    end;
  writeFile p content fs :=
    match lookup p fs with
    | Some DirNode => (Throw (fsError "EISDIR" p), fs)
    | _ => (Return tt, update p (FileNode content) fs)
    end;
  mkdir p fs :=
    match lookup p fs with
    | Some (FileNode _) => (Throw (fsError "EEXIST" p), fs)
    | _ => (Return tt, update p DirNode fs)
    end;
  readdir p fs :=
    match lookup p fs with
    | Some DirNode => Return (children p fs)
    | Some (FileNode _) => Throw (fsError "ENOTDIR" p)
    | None => Throw (fsError "ENOENT" p)
    end;
  access p fs :=
    match lookup p fs with
    | Some _ => Return tt
    | None => Throw (fsError "ENOENT" p)
    end;
  rename src dst fs :=
    match lookup src fs with
    | Some n => (Return tt, update dst n (remove src fs))
    | None => (Throw (fsError "ENOENT" src), fs)
    end;
  stat p fs :=
    match lookup p fs with
    | Some DirNode =>
        Return (mkStats true (lit "4096") (lit "1970-01-01T00:00:00.000Z")
                        (lit "1970-01-01T00:00:00.000Z")
                        (lit "1970-01-01T00:00:00.000Z") (lit "40755"))
    | Some (FileNode c) =>
        Return (mkStats false (lit "0") (lit "1970-01-01T00:00:00.000Z")
                        (lit "1970-01-01T00:00:00.000Z")
                        (lit "1970-01-01T00:00:00.000Z") (lit "100644"))
    | None => Throw (fsError "ENOENT" p)
    end;
  glob _ _ _ _ := Return []
}.

(** A world with the given storage and no call made yet. *)
Definition start (fs : t) : World t := mkWorld fs [].

End MemFs.

(** ** Containment, as the specification words it *)

Fixpoint prefixb (d r : list jsstring) : bool :=
  match d, r with
  | [], _ => true
  | x :: d', y :: r' => eqb x y && prefixb d' r'
  | _ :: _, [] => false
  end.

(** [p] is [allowedDir] itself or a descendant of it: the segments of
    [allowedDir] are the leading segments of [p]. *)
Definition is_within (allowedDir p : jsstring) : bool :=
  prefixb (path.segments allowedDir) (path.segments p).

(** [userPath] is empty or made of white space only. *)
Definition blank (userPath : jsstring) : bool := forallb isWhiteSpace userPath.

(** ** The blocks of [read_multiple_files], as the specification words them *)

Definition file_block (userPath content : jsstring) : jsstring :=
  lit "--- File: " ++ userPath ++ lit " ---" ++ NL ++ content ++ NL
  ++ lit "--- End: " ++ userPath ++ lit " ---".

Definition error_block (userPath error : jsstring) : jsstring :=
  lit "--- File: " ++ userPath ++ lit " ---" ++ NL ++ lit "Error: " ++ error ++ NL
  ++ lit "--- End: " ++ userPath ++ lit " ---".

(** The content-or-error block of one requested path: it depends on that
    path and on the storage only. *)
Definition path_block {S : Type} `{FileSystem S} (cwd : jsstring) (s : S)
           (userPath : jsstring) : jsstring :=
  match resolveAndValidatePath cwd userPath with
  | Throw error => error_block userPath (message error)
  | Return filePath =>
      match readFile filePath s with
      | Return content => file_block userPath content
      | Throw error => error_block userPath (message error)
      end
  end.

(** The reads the requested paths lead to: one for each accepted path. *)
Definition path_reads (cwd : jsstring) (userPaths : list jsstring) : list FsCall :=
  flat_map (fun userPath =>
              match resolveAndValidatePath cwd userPath with
              | Return filePath => [CallReadFile filePath]
              | Throw _ => []
              end) userPaths.

(** ** Auxiliary notions *)

(** A segment holds no separator. *)
Definition slashfree (seg : jsstring) : bool :=
  forallb (fun c => negb (N.eqb c SLASH)) seg.

(** A segment [normalizeString] keeps below the root: not empty, not
    ["."], not [".."], and without a separator. *)
Definition kept (seg : jsstring) : bool :=
  negb (eqb seg []) && negb (eqb seg [DOT]) && negb (eqb seg [DOT; DOT])
  && slashfree seg.

(** A resolved absolute path: [/] followed by kept segments. *)
Definition absolute_of (segs : list jsstring) : jsstring :=
  SLASH :: JS.join [SLASH] segs.

(** A replacement text without dollar signs. *)
Definition plain (template : jsstring) : bool :=
  forallb (fun c => negb (N.eqb c DOLLAR)) template.

(** What [replaceAll] puts in for the empty match at offset [pos] of
    [whole]: the replacement text with its dollar patterns expanded, the
    matched text being empty. *)
Definition expansion_at (whole replaceValue : jsstring) (pos : nat) : jsstring :=
  GetSubstitution [] (firstn pos whole) (skipn pos whole) replaceValue.

(** [s] with [ins pos] put before its code unit at each offset [pos]
    (counted from [pos] on) and once more at the end. *)
Fixpoint inserted (ins : nat -> jsstring) (pos : nat) (s : jsstring) : jsstring :=
  ins pos ++ match s with
             | [] => []
             | c :: s' => c :: inserted ins (S pos) s'
             end.

(** Unfolds the async monad. *)
Ltac run_async :=
  unfold try_catch, bind, lift, ret, throw, fs_readFile, fs_writeFile, fs_mkdir,
    fs_readdir, fs_access, fs_rename, fs_stat, fs_glob, logCall in *;
  simpl in *.

(** Splits a membership among recorded [mkdir] calls into its cases. *)
Ltac mkdir_cases :=
  let Hin := fresh "Hin" in
  intros Hin; rewrite ?in_app_iff in Hin; simpl in Hin;
  repeat match goal with H : _ \/ _ |- _ => destruct H end;
  try contradiction;
  try match goal with H : CallMkdir _ = CallMkdir _ |- _ => injection H as <- end;
  subst; eauto 6.

(** ** Startup and the allowed-directories listing *)

(** [s.replace(search, replaceValue)] with string arguments: the first
    occurrence only. *)
Definition String_replace (s search replaceValue : jsstring) : jsstring :=
  match indexOf s search with
  | None => s
  | Some pos =>
      firstn pos s
      ++ GetSubstitution search (firstn pos s) (skipn (pos + length search) s)
                         replaceValue
      ++ skipn (pos + length search) s
  end.

(** The text both [list_allowed_directories_tool] and the
    [list-allowed-directories] resource build from the allowed
    directories. *)
Definition allowedDirsListing (dirs : list jsstring) : jsstring :=
  lit "Allowed base directories for file operations:" ++ NL
  ++ JS.join NL (map (fun d => lit "- " ++ String_replace d (lit "/home/project/") [])
                     dirs).

Section Startup.

Context {S : Type} `{FileSystem S}.

Variable cwd : jsstring.

(** The loop of [initializeAllowedDirs]: one [mkdir] for each directory,
    a failure being logged and passed over. *)
Fixpoint ensureDirs (dirs : list jsstring) : Async S unit :=
  match dirs with
  | [] => ret tt
  | dir :: rest =>
      (try fs_mkdir dir catch (fun _ => ret tt)) ;;;
      ensureDirs rest
  end.

Definition initializeAllowedDirs : Async S unit := ensureDirs (ALLOWED_DIRS cwd).

(** 10. [list_allowed_directories_tool]. *)
Definition list_allowed_directories_tool : Async S ToolResult :=
  try (let dirs := ALLOWED_DIRS cwd in
       ret (okResult (allowedDirsListing dirs)))
  catch (fun error =>
    ret (createErrorResult
           (lit "Failed to retrieve allowed directories. " ++ message error))).

End Startup.

(** resources.ts: what a resource read answers, for the [uri] asked. *)
Module resources.

Record Contents := mkContents { uri : jsstring; text : jsstring }.

Definition filesystem_interface (href : jsstring) : Contents :=
  mkContents href
    (lit "Interface for interacting with the server's local file system within allowed directories.").

Definition list_allowed_directories (cwd href : jsstring) : Contents :=
  mkContents href (allowedDirsListing (ALLOWED_DIRS cwd)).

End resources.

(** ** Further notions *)

(** The storage calls that can change the storage. *)
Definition is_mutating (c : FsCall) : bool :=
  match c with
  | CallWriteFile _ _ | CallMkdir _ | CallRename _ _ => true
  | _ => false
  end.

(** A line of [appliedEditsInfo] that reports a replacement. *)
Definition isReplacedLine (line : jsstring) : bool :=
  startsWith line (lit "Replaced all occurrences of ").

(** The working content after the edits, each made on the result of the
    one before. *)
Definition replaceAll_each (content : jsstring) (edits : list Edit) : jsstring :=
  fold_left (fun s edit => replaceAll s (oldText edit) (newText edit)) edits content.

(** The first segment of [p] below [allowedDir], when there is one. *)
Definition first_below (allowedDir p : jsstring) : option jsstring :=
  nth_error (path.segments p) (length (path.segments allowedDir)).

(** A first segment that [relative.startsWith('..')] does not trip on. *)
Definition passes_dotdot_test (first : option jsstring) : bool :=
  match first with
  | Some seg => negb (startsWith seg (lit ".."))
  | None => true
  end.

(** Case analysis on the first [match] or [if] of the goal. *)
Ltac break_match :=
  match goal with
  | |- context [match ?x with _ => _ end] => destruct x eqn:?
  end.

(** One case analysis on what a handler does next: the validation, a
    storage call, or a test on its outcome. *)
Ltac step_handler :=
  match goal with
  | |- context [resolveAndValidatePath ?c ?p] =>
      destruct (resolveAndValidatePath c p) eqn:?
  | |- context [readFile ?p ?s] => destruct (readFile p s) eqn:?
  | |- context [writeFile ?p ?c ?s] => destruct (writeFile p c s) as [[[]|?] ?] eqn:?
  | |- context [mkdir ?p ?s] => destruct (mkdir p s) as [[[]|?] ?] eqn:?
  | |- context [readdir ?p ?s] => destruct (readdir p s) eqn:?
  | |- context [access ?p ?s] => destruct (access p s) as [[]|?] eqn:?
  | |- context [rename ?a ?b ?s] => destruct (rename a b s) as [[[]|?] ?] eqn:?
  | |- context [stat ?p ?s] => destruct (stat p s) eqn:?
  | |- context [glob ?a ?b ?c ?s] => destruct (glob a b c s) eqn:?
  | |- context [hasCode ?e ?c] => destruct (hasCode e c) eqn:?
  | |- context [includes ?a ?b] => destruct (includes a b) eqn:?
  | |- context [statsIsDirectory ?s] => destruct (statsIsDirectory s) eqn:?
  | |- context [changesMade ?s] => destruct (changesMade s) eqn:?
  end;
  cbv beta iota; cbn [fst snd store calls negb].

(** Unfolds the async monad and nothing else. *)
Ltac unfold_async :=
  unfold try_catch, bind, lift, ret, throw, fs_readFile, fs_writeFile, fs_mkdir,
    fs_readdir, fs_access, fs_rename, fs_stat, fs_glob, logCall;
  cbv beta.


(** Closes a goal that asks for the calls added, all of them reads. *)
Ltac only_reads :=
  first [ exists []; split; [now rewrite app_nil_r | reflexivity]
        | eexists; split;
          [rewrite <- ?app_assoc; simpl; reflexivity | reflexivity] ].

(** The stack of segments [normalizeString] holds after reading [s],
    started from the stack [acc] (innermost segment first). *)
Definition stack_after (acc : list jsstring) (s : jsstring) : list jsstring :=
  fold_left (path.normalize_step false) (path.split_slash s) acc.

Definition isSlash (c : N) : bool := N.eqb c SLASH.

(** * Properties *)

(** ** The primitives on sample inputs *)

Example replaceAll_plain :
  replaceAll (lit "foo bar foo") (lit "foo") (lit "baz") = lit "baz bar baz".
Proof. reflexivity. Qed.

Example replaceAll_leftmost_first :
  replaceAll (lit "aaa") (lit "aa") (lit "b") = lit "ba".
Proof. reflexivity. Qed.

Example replaceAll_not_rescanned :
  replaceAll (lit "ab") (lit "a") (lit "aa") = lit "aab".
Proof. reflexivity. Qed.

Example replaceAll_empty_search :
  replaceAll (lit "ab") [] (lit "x") = lit "xaxbx".
Proof. reflexivity. Qed.

Example replaceAll_empty_search_dollar :
  replaceAll (lit "ab") [] (lit "$$") = lit "$a$b$"
  /\ replaceAll (lit "ab") [] (lit "$&") = lit "ab"
  /\ replaceAll (lit "ab") [] (lit "$'") = lit "ababb".
Proof. repeat split; reflexivity. Qed.

Example replaceAll_dollar_patterns :
  replaceAll (lit "a-b") (lit "-") (lit "[$`|$&|$'|$$|$1]") = lit "a[a|-|b|$|$1]b".
Proof. reflexivity. Qed.

Example includes_samples :
  includes (lit "foo bar") (lit "o b") = true
  /\ includes (lit "foo") (lit "fooo") = false
  /\ includes [] [] = true.
Proof. repeat split; reflexivity. Qed.

Example trim_samples :
  trim (lit "  ") = [] /\ trim (lit " a b ") = lit "a b" /\ trim [9; 160; 65279]%N = [].
Proof. repeat split; reflexivity. Qed.

Example resolve_samples (cwd : jsstring) :
  path.resolve cwd [lit "/home/project"; lit "data/a/../b/./c//"] = lit "/home/project/data/b/c"
  /\ path.resolve cwd [lit "/home/project"; lit "../../../.."] = lit "/"
  /\ path.resolve cwd [lit "/home/project"; lit "/etc/passwd"] = lit "/etc/passwd"
  /\ path.resolve cwd [lit "/home/project"; []] = lit "/home/project".
Proof. repeat split; vm_compute; reflexivity. Qed.

Example resolve_uses_cwd :
  path.resolve (lit "/srv/app") [lit "x/../y"] = lit "/srv/app/y".
Proof. reflexivity. Qed.

Example relative_samples (cwd : jsstring) :
  path.relative cwd (lit "/a/b") (lit "/a/c/d") = lit "../c/d"
  /\ path.relative cwd (lit "/a/b") (lit "/a/bc") = lit "../bc"
  /\ path.relative cwd (lit "/a/b") (lit "/a/b/..c") = lit "..c"
  /\ path.relative cwd (lit "/a/b") (lit "/") = lit "../.."
  /\ path.relative cwd (lit "/") (lit "/a") = lit "a"
  /\ path.relative cwd (lit "/a/b") (lit "/a/b/") = [].
Proof. repeat split; vm_compute; reflexivity. Qed.

Example dirname_samples :
  path.dirname (lit "data/a/../..") = lit "data/a/.."
  /\ path.dirname (lit "data/..foo") = lit "data"
  /\ path.dirname (lit "a/b//") = lit "a"
  /\ path.dirname (lit "a") = lit "."
  /\ path.dirname (lit "/a") = lit "/"
  /\ path.dirname (lit "//a") = lit "//"
  /\ path.dirname ([]) = lit ".".
Proof. repeat split; reflexivity. Qed.

Example join_samples :
  path.join [lit "data/"; lit "x/../y"] = lit "data/y"
  /\ path.join [lit "data"; lit "../../z/"] = lit "../z/"
  /\ path.join [[]; []] = lit ".".
Proof. repeat split; reflexivity. Qed.

Example validate_samples (cwd : jsstring) :
  resolveAndValidatePath cwd (lit "data") = Return (lit "/home/project/data")
  /\ resolveAndValidatePath cwd (lit "data/a/../b.txt") = Return (lit "/home/project/data/b.txt")
  /\ resolveAndValidatePath cwd (lit "/home/project/data/x") = Return (lit "/home/project/data/x")
  /\ resolveAndValidatePath cwd (lit "database") = Throw (accessDeniedError (lit "database"))
  /\ resolveAndValidatePath cwd (lit "a/../../etc") = Throw (accessDeniedError (lit "a/../../etc"))
  /\ resolveAndValidatePath cwd ([]) = Throw invalidPathError.
Proof. repeat split; vm_compute; reflexivity. Qed.

(** ** Strings *)

Lemma eqb_refl (a : jsstring) : eqb a a = true.
Proof. induction a as [|x a IH]; simpl; [reflexivity|]. now rewrite N.eqb_refl. Qed.

Lemma eqb_eq (a b : jsstring) : eqb a b = true <-> a = b.
Proof.
  split; [|intros ->; apply eqb_refl].
  revert b; induction a as [|x a IH]; intros [|y b]; simpl; try discriminate; auto.
  intros E. apply andb_true_iff in E as [E1 E2].
  apply N.eqb_eq in E1. apply IH in E2. now subst.
Qed.

Lemma eqb_neq (a b : jsstring) : eqb a b = false <-> a <> b.
Proof.
  rewrite <- eqb_eq. destruct (eqb a b); split; congruence.
Qed.

Lemma startsWith_app (p s : jsstring) : startsWith (p ++ s) p = true.
Proof. induction p as [|x p IH]; simpl; [reflexivity|]. now rewrite N.eqb_refl. Qed.

Lemma includes_empty (s : jsstring) : includes s [] = true.
Proof. unfold includes. destruct s; reflexivity. Qed.

Lemma trimStart_nil_iff (s : jsstring) : trimStart s = [] <-> forallb isWhiteSpace s = true.
Proof.
  induction s as [|c s IH]; simpl; [tauto|].
  destruct (isWhiteSpace c); simpl; [exact IH|]. split; discriminate.
Qed.

Lemma trimStart_suffix (s : jsstring) : exists pre, s = pre ++ trimStart s /\ forallb isWhiteSpace pre = true.
Proof.
  induction s as [|c s [pre [E F]]]; simpl.
  - exists []. auto.
  - destruct (isWhiteSpace c) eqn:W.
    + exists (c :: pre). simpl. rewrite W, F. split; [now f_equal|reflexivity].
    + exists []. auto.
Qed.

Lemma forallb_rev' (f : N -> bool) (s : jsstring) : forallb f (rev s) = forallb f s.
Proof.
  induction s as [|c s IH]; simpl; [reflexivity|].
  rewrite forallb_app, IH. simpl. rewrite andb_true_r. apply andb_comm.
Qed.

(** [!userPath.trim()] holds exactly for the blank strings. *)
Lemma trim_nil_iff (s : jsstring) : eqb (trim s) [] = blank s.
Proof.
  unfold trim, blank.
  destruct (forallb isWhiteSpace s) eqn:B.
  - apply trimStart_nil_iff in B. rewrite B. reflexivity.
  - apply eqb_neq. intros E.
    assert (E' : trimStart (rev (trimStart s)) = []).
    { destruct (trimStart (rev (trimStart s))); [reflexivity|].
      apply (f_equal (@length N)) in E. rewrite length_rev in E. discriminate. }
    apply trimStart_nil_iff in E'. rewrite forallb_rev' in E'.
    destruct (trimStart_suffix s) as [pre [Es Fp]].
    assert (forallb isWhiteSpace s = true) by (rewrite Es, forallb_app, Fp, E'; reflexivity).
    congruence.
Qed.

(** ** Path segments *)

Lemma split_slash_nonempty (s : jsstring) : path.split_slash s <> [].
Proof. destruct s as [|c s]; simpl; [discriminate|]. destruct (N.eqb c SLASH); [discriminate|]. destruct (path.split_slash s); discriminate. Qed.

Lemma split_slash_slashfree (s : jsstring) :
  Forall (fun seg => slashfree seg = true) (path.split_slash s).
Proof.
  induction s as [|c s IH]; simpl.
  - repeat constructor.
  - destruct (N.eqb c SLASH) eqn:E.
    + constructor; [reflexivity|exact IH].
    + destruct (path.split_slash s) as [|seg segs].
      * repeat constructor. simpl. now rewrite E.
      * inversion IH; subst. constructor; [|assumption].
        simpl. rewrite E. assumption.
Qed.

Lemma split_slash_app (p s : jsstring) :
  slashfree p = true ->
  path.split_slash (p ++ SLASH :: s) = p :: path.split_slash s.
Proof.
  induction p as [|c p IH]; simpl; intros F.
  - reflexivity.
  - apply andb_true_iff in F as [Fc Fp]. apply negb_true_iff in Fc.
    rewrite Fc, (IH Fp). reflexivity.
Qed.

Lemma split_slash_single (p : jsstring) :
  slashfree p = true -> path.split_slash p = [p].
Proof.
  induction p as [|c p IH]; simpl; intros F; [reflexivity|].
  apply andb_true_iff in F as [Fc Fp]. apply negb_true_iff in Fc.
  rewrite Fc, (IH Fp). reflexivity.
Qed.

Lemma split_slash_snoc (s : jsstring) :
  path.split_slash (s ++ [SLASH]) = path.split_slash s ++ [[]].
Proof.
  induction s as [|c s IH]; simpl; [reflexivity|].
  destruct (N.eqb c SLASH); [now rewrite IH|].
  rewrite IH. destruct (path.split_slash s) as [|seg segs] eqn:E.
  - now apply split_slash_nonempty in E.
  - reflexivity.
Qed.

Lemma split_slash_join (segs : list jsstring) :
  segs <> [] -> Forall (fun seg => slashfree seg = true) segs ->
  path.split_slash (JS.join [SLASH] segs) = segs.
Proof.
  induction segs as [|seg segs IH]; intros NE F; [congruence|].
  inversion F as [|? ? Fs Fr]; subst.
  destruct segs as [|seg' segs'].
  - simpl. now apply split_slash_single.
  - change (JS.join [SLASH] (seg :: seg' :: segs'))
      with (seg ++ SLASH :: JS.join [SLASH] (seg' :: segs')).
    rewrite split_slash_app by assumption.
    f_equal. apply IH; [discriminate|assumption].
Qed.

Lemma kept_slashfree (seg : jsstring) : kept seg = true -> slashfree seg = true.
Proof. unfold kept. intros K. now apply andb_true_iff in K as [_ K]. Qed.

Lemma kept_nonempty (seg : jsstring) : kept seg = true -> eqb seg [] = false.
Proof.
  unfold kept. intros K. repeat (apply andb_true_iff in K as [K ?]).
  now apply negb_true_iff in K.
Qed.

Lemma Forall_kept_slashfree (segs : list jsstring) :
  Forall (fun seg => kept seg = true) segs ->
  Forall (fun seg => slashfree seg = true) segs.
Proof. intros F. eapply Forall_impl; [|exact F]. apply kept_slashfree. Qed.

(** Below the root the stack only ever holds kept segments. *)
Lemma normalize_step_kept (res : list jsstring) (seg : jsstring) :
  slashfree seg = true ->
  Forall (fun s => kept s = true) res ->
  Forall (fun s => kept s = true) (path.normalize_step false res seg).
Proof.
  intros Fs Fr. unfold path.normalize_step.
  destruct (eqb seg []) eqn:E0; simpl; [assumption|].
  destruct (eqb seg [DOT]) eqn:E1; simpl; [assumption|].
  destruct (eqb seg [DOT; DOT]) eqn:E2.
  - destruct res as [|top res']; [constructor|].
    inversion Fr; subst. destruct (eqb top [DOT; DOT]); assumption.
  - constructor; [|assumption]. unfold kept. now rewrite E0, E1, E2, Fs.
Qed.

Lemma fold_normalize_kept (segs res : list jsstring) :
  Forall (fun s => slashfree s = true) segs ->
  Forall (fun s => kept s = true) res ->
  Forall (fun s => kept s = true) (fold_left (path.normalize_step false) segs res).
Proof.
  revert res. induction segs as [|seg segs IH]; intros res Fs Fr; simpl; [assumption|].
  inversion Fs; subst. apply IH; [assumption|]. now apply normalize_step_kept.
Qed.

Lemma normalize_segments_kept (p : jsstring) :
  Forall (fun s => kept s = true) (path.normalize_segments false p).
Proof.
  unfold path.normalize_segments. apply Forall_rev.
  apply fold_normalize_kept; [apply split_slash_slashfree|constructor].
Qed.

(** Kept segments go through [normalizeString] unchanged. *)
Lemma fold_normalize_id (segs res : list jsstring) :
  Forall (fun s => kept s = true) segs ->
  fold_left (path.normalize_step false) segs res = rev segs ++ res.
Proof.
  revert res. induction segs as [|seg segs IH]; intros res F; simpl; [reflexivity|].
  inversion F as [|? ? K Fr]; subst. rewrite IH by assumption.
  rewrite <- app_assoc. simpl. f_equal.
  unfold path.normalize_step. unfold kept in K.
  repeat (apply andb_true_iff in K as [K ?]).
  repeat match goal with H : negb _ = true |- _ => apply negb_true_iff in H; rewrite H end.
  reflexivity.
Qed.

Lemma fold_normalize_empty_seg (allow : bool) (res : list jsstring) :
  path.normalize_step allow res [] = res.
Proof. reflexivity. Qed.

Lemma segments_absolute_of (segs : list jsstring) :
  Forall (fun s => kept s = true) segs ->
  path.segments (absolute_of segs) = segs.
Proof.
  intros F. unfold path.segments, absolute_of.
  change (SLASH :: JS.join [SLASH] segs) with ([] ++ SLASH :: JS.join [SLASH] segs).
  rewrite split_slash_app by reflexivity.
  destruct segs as [|seg segs]; [reflexivity|].
  rewrite split_slash_join; [|discriminate|now apply Forall_kept_slashfree].
  change (filter (fun s => negb (eqb s [])) ([] :: seg :: segs))
    with (filter (fun s => negb (eqb s [])) (seg :: segs)).
  apply forallb_filter_id. apply forallb_forall. intros x Hx.
  rewrite Forall_forall in F. now rewrite (kept_nonempty _ (F x Hx)).
Qed.

Lemma normalize_segments_absolute_of (segs : list jsstring) (tail : jsstring) :
  Forall (fun s => kept s = true) segs ->
  tail = [] \/ tail = [SLASH] ->
  path.normalize_segments false (absolute_of segs ++ tail) = segs.
Proof.
  intros F Ht. unfold path.normalize_segments.
  assert (E : fold_left (path.normalize_step false)
                        (path.split_slash (absolute_of segs)) [] = rev segs).
  { unfold absolute_of.
    change (SLASH :: JS.join [SLASH] segs) with ([] ++ SLASH :: JS.join [SLASH] segs).
    rewrite split_slash_app by reflexivity.
    destruct segs as [|seg segs]; [reflexivity|].
    rewrite split_slash_join; [|discriminate|now apply Forall_kept_slashfree].
    transitivity (fold_left (path.normalize_step false) (seg :: segs) []);
      [reflexivity|].
    rewrite fold_normalize_id by assumption. apply app_nil_r. }
  destruct Ht as [-> | ->].
  - rewrite app_nil_r, E. apply rev_involutive.
  - rewrite split_slash_snoc, fold_left_app, E. simpl.
    rewrite fold_normalize_empty_seg. apply rev_involutive.
Qed.

Section Resolution.

Variable cwd : jsstring.

(** Resolving an already resolved absolute path gives it back. *)
Lemma resolve_absolute_of (segs : list jsstring) :
  Forall (fun s => kept s = true) segs ->
  path.resolve cwd [absolute_of segs] = absolute_of segs.
Proof.
  intros F. unfold path.resolve. simpl rev.
  unfold path.resolve_loop. unfold absolute_of at 1 2 3.
  cbv beta iota. unfold path.isAbsolute. rewrite N.eqb_refl.
  unfold path.normalizeString. simpl negb.
  change ((SLASH :: JS.join [SLASH] segs) ++ [SLASH] ++ [])
    with (absolute_of segs ++ [SLASH]).
  rewrite normalize_segments_absolute_of; auto.
Qed.

(** Whatever the caller sends, resolving it against [projectRoot] gives
    an absolute path made of kept segments. *)
Lemma resolve_against_root (p : jsstring) :
  exists segs, Forall (fun s => kept s = true) segs /\
               path.resolve cwd [projectRoot; p] = absolute_of segs.
Proof.
  unfold path.resolve. simpl rev.
  assert (L : exists X, path.resolve_loop cwd [p; projectRoot] [] = (X, true)).
  { destruct p as [|c p]; simpl.
    - eexists; reflexivity.
    - destruct (N.eqb c SLASH); eexists; reflexivity. }
  destruct L as [X ->]. simpl negb. cbv iota.
  exists (path.normalize_segments false X). split.
  - apply normalize_segments_kept.
  - reflexivity.
Qed.

Lemma relative_absolute_of (F T : list jsstring) :
  Forall (fun s => kept s = true) F ->
  Forall (fun s => kept s = true) T ->
  path.relative cwd (absolute_of F) (absolute_of T) =
    if eqb (absolute_of F) (absolute_of T) then []
    else JS.join [SLASH] (path.relative_segments F T).
Proof.
  intros KF KT. unfold path.relative.
  rewrite !resolve_absolute_of by assumption.
  rewrite !segments_absolute_of by assumption.
  destruct (eqb (absolute_of F) (absolute_of T)); reflexivity.
Qed.

End Resolution.

Lemma prefixb_refl (d : list jsstring) : prefixb d d = true.
Proof. induction d as [|x d IH]; simpl; [reflexivity|]. now rewrite eqb_refl. Qed.

Lemma startsWith_join_head (sep seg : jsstring) (rest : list jsstring) :
  startsWith (JS.join sep (seg :: rest)) seg = true.
Proof.
  destruct rest as [|seg' rest'].
  - simpl. rewrite <- (app_nil_r seg) at 1. apply startsWith_app.
  - change (JS.join sep (seg :: seg' :: rest'))
      with (seg ++ sep ++ JS.join sep (seg' :: rest')).
    apply startsWith_app.
Qed.

(** When [from] is not a leading part of [to], the relative path climbs:
    it begins with a [".."] segment. *)
Lemma relative_segments_climbs (F T : list jsstring) :
  prefixb F T = false ->
  exists rest, path.relative_segments F T = [DOT; DOT] :: rest.
Proof.
  revert T. induction F as [|f F IH]; intros T P; simpl in P; [discriminate|].
  destruct T as [|t T]; simpl.
  - eexists; reflexivity.
  - destruct (eqb f t); simpl in P.
    + now apply IH.
    + eexists; reflexivity.
Qed.

(** When [from] is a leading part of [to], the relative path is what is
    left of [to]. *)
Lemma relative_segments_descends (F rest : list jsstring) :
  path.relative_segments F (F ++ rest) = rest.
Proof.
  induction F as [|f F IH]; simpl.
  - destruct rest; reflexivity.
  - now rewrite eqb_refl.
Qed.

Lemma prefixb_app (d r : list jsstring) :
  prefixb d r = true <-> exists rest, r = d ++ rest.
Proof.
  revert r. induction d as [|x d IH]; intros r; simpl.
  - split; [eexists; reflexivity|reflexivity].
  - destruct r as [|y r].
    + split; [discriminate|]. intros [rest E]. discriminate.
    + rewrite andb_true_iff, eqb_eq, IH. split.
      * intros [-> [rest ->]]. now exists rest.
      * intros [rest E]. injection E as -> ->. split; [reflexivity|now exists rest].
Qed.

(** The test of [resolveAndValidatePath] accepts only what lies within the
    allowed directory. *)
Lemma isInside_sound (cwd : jsstring) (F T : list jsstring) :
  Forall (fun s => kept s = true) F ->
  Forall (fun s => kept s = true) T ->
  isInside cwd (absolute_of F) (absolute_of T) = true ->
  prefixb F T = true.
Proof.
  intros KF KT. unfold isInside. rewrite relative_absolute_of by assumption.
  destruct (eqb (absolute_of F) (absolute_of T)) eqn:E.
  - intros _. apply eqb_eq in E.
    rewrite <- (segments_absolute_of F KF), <- (segments_absolute_of T KT), E.
    apply prefixb_refl.
  - destruct (prefixb F T) eqn:P; [reflexivity|].
    destruct (relative_segments_climbs _ _ P) as [rest ->].
    change (lit "..") with [DOT; DOT].
    rewrite startsWith_join_head. discriminate.
Qed.

Lemma is_within_absolute_of (F T : list jsstring) :
  Forall (fun s => kept s = true) F ->
  Forall (fun s => kept s = true) T ->
  is_within (absolute_of F) (absolute_of T) = prefixb F T.
Proof. intros KF KT. unfold is_within. now rewrite !segments_absolute_of. Qed.

(** ** The path validator *)

Lemma allowed_dirs_form (cwd d : jsstring) :
  In d (ALLOWED_DIRS cwd) ->
  exists segs, Forall (fun s => kept s = true) segs /\ d = absolute_of segs.
Proof.
  intros [<- | []]. destruct (resolve_against_root cwd (lit "data")) as [segs [K E]].
  exists segs. split; [assumption|]. exact E.
Qed.

(** C1 (as amended).  A caller-supplied path whose lexical resolution
    against the project root lies within no allowed directory is always
    rejected: with the invalid-path error when it is empty or white space
    only, with the access-denied error otherwise.  And a path that
    validation returns is that resolution and lies within an allowed
    directory. *)
Theorem validate_containment_sound (cwd p : jsstring) :
  ((forall d, In d (ALLOWED_DIRS cwd) ->
              is_within d (path.resolve cwd [projectRoot; p]) = false) ->
   resolveAndValidatePath cwd p =
     Throw (if blank p then invalidPathError else accessDeniedError p))
  /\
  (forall r, resolveAndValidatePath cwd p = Return r ->
             r = path.resolve cwd [projectRoot; p] /\
             exists d, In d (ALLOWED_DIRS cwd) /\ is_within d r = true).
Proof.
  assert (Sound : forall d, In d (ALLOWED_DIRS cwd) ->
            isInside cwd d (path.resolve cwd [projectRoot; p]) = true ->
            is_within d (path.resolve cwd [projectRoot; p]) = true).
  { intros d Hd Hin.
    destruct (allowed_dirs_form _ _ Hd) as [F [KF ->]].
    destruct (resolve_against_root cwd p) as [T [KT E]]. rewrite E in *.
    rewrite is_within_absolute_of by assumption.
    now apply (isInside_sound cwd). }
  unfold resolveAndValidatePath. rewrite trim_nil_iff. split.
  - intros Out. destruct (blank p); [reflexivity|].
    destruct (existsb _ _) eqn:Ex; [|reflexivity].
    apply existsb_exists in Ex as [d [Hd Hin]].
    specialize (Out d Hd). rewrite (Sound d Hd Hin) in Out. discriminate.
  - intros r. destruct (blank p); [discriminate|].
    destruct (existsb _ _) eqn:Ex; simpl; [|discriminate].
    intros [= <-]. split; [reflexivity|].
    apply existsb_exists in Ex as [d [Hd Hin]].
    exists d. split; [assumption|]. now apply Sound.
Qed.

Lemma validate_containment_sound_witness :
  (forall d, In d (ALLOWED_DIRS (lit "/home/project")) ->
     is_within d (path.resolve (lit "/home/project")
                               [projectRoot; lit "data/../../etc/passwd"]) = false)
  /\ resolveAndValidatePath (lit "/home/project") (lit "data/../../etc/passwd") =
       Throw (accessDeniedError (lit "data/../../etc/passwd")).
Proof.
  assert (Out : forall d, In d (ALLOWED_DIRS (lit "/home/project")) ->
     is_within d (path.resolve (lit "/home/project")
                               [projectRoot; lit "data/../../etc/passwd"]) = false).
  { intros d [<- | []]. vm_compute. reflexivity. }
  split; [exact Out|].
  exact (proj1 (validate_containment_sound (lit "/home/project")
                                           (lit "data/../../etc/passwd")) Out).
Defined.

(** C1, as the specification states it, fails on a blank path: its
    resolution is the project root, outside every allowed directory, and
    the error is the invalid-path one, not the access-denied one. *)
Lemma validate_blank_is_not_access_denied :
  (forall d, In d (ALLOWED_DIRS (lit "/home/project")) ->
             is_within d (path.resolve (lit "/home/project") [projectRoot; lit " "]) = false)
  /\ resolveAndValidatePath (lit "/home/project") (lit " ") = Throw invalidPathError
  /\ resolveAndValidatePath (lit "/home/project") (lit " ")
     <> Throw (accessDeniedError (lit " ")).
Proof.
  split; [|split].
  - intros d [<- | []]. vm_compute. reflexivity.
  - vm_compute. reflexivity.
  - vm_compute. discriminate.
Qed.

(** What the test does accept: a path within the allowed directory whose
    first segment below it does not begin with two dots. *)
Lemma isInside_complete (cwd : jsstring) (F rest : list jsstring) :
  Forall (fun s => kept s = true) F ->
  Forall (fun s => kept s = true) (F ++ rest) ->
  match rest with
  | [] => True
  | first :: _ => startsWith first (lit "..") = false
  end ->
  isInside cwd (absolute_of F) (absolute_of (F ++ rest)) = true.
Proof.
  intros KF KT Hfirst. unfold isInside.
  rewrite relative_absolute_of by assumption.
  destruct (eqb (absolute_of F) (absolute_of (F ++ rest))); [reflexivity|].
  rewrite relative_segments_descends.
  destruct rest as [|first rest']; [reflexivity|].
  apply Forall_app in KT as [_ KR]. inversion KR as [|? ? Kfirst _]; subst.
  assert (Hhead : exists tl, JS.join [SLASH] (first :: rest') = first ++ tl).
  { destruct rest' as [|seg rest''].
    - exists []. simpl. now rewrite app_nil_r.
    - eexists. reflexivity. }
  destruct Hhead as [tl ->].
  unfold kept in Kfirst. repeat (apply andb_true_iff in Kfirst as [Kfirst ?]).
  destruct first as [|c cs]; [discriminate|].
  match goal with Hs : slashfree (c :: cs) = true |- _ =>
    unfold slashfree in Hs; cbn [forallb] in Hs;
    apply andb_true_iff in Hs as [Hc _]; apply negb_true_iff in Hc end.
  change (lit "..") with [DOT; DOT] in *.
  cbn [startsWith app path.isAbsolute] in *. rewrite Hc.
  destruct (N.eqb DOT c) eqn:Ec; [|reflexivity].
  destruct cs as [|c2 cs'].
  - apply N.eqb_eq in Ec. subst c.
    match goal with Hd : negb (eqb [DOT] [DOT]) = true |- _ => discriminate Hd end.
  - cbn [startsWith app andb] in *. rewrite Hfirst. reflexivity.
Qed.

Lemma validate_accepts_within (cwd p d : jsstring) :
  blank p = false ->
  In d (ALLOWED_DIRS cwd) ->
  is_within d (path.resolve cwd [projectRoot; p]) = true ->
  match nth_error (path.segments (path.resolve cwd [projectRoot; p]))
                  (length (path.segments d)) with
  | Some first => startsWith first (lit "..") = false
  | None => True
  end ->
  resolveAndValidatePath cwd p = Return (path.resolve cwd [projectRoot; p]).
Proof.
  intros B Hd W Hfirst.
  destruct (allowed_dirs_form cwd d Hd) as [F [KF ->]].
  destruct (resolve_against_root cwd p) as [T [KT E]].
  unfold resolveAndValidatePath. rewrite trim_nil_iff, B.
  rewrite E in *. rewrite is_within_absolute_of in W by assumption.
  rewrite !segments_absolute_of in Hfirst by assumption.
  apply prefixb_app in W as [rest ->].
  assert (Ex : existsb (fun allowedDir => isInside cwd allowedDir (absolute_of (F ++ rest)))
                       (ALLOWED_DIRS cwd) = true).
  { apply existsb_exists. exists (absolute_of F). split; [assumption|].
    apply isInside_complete; try assumption.
    destruct rest as [|first rest']; [exact I|].
    rewrite nth_error_app2, Nat.sub_diag in Hfirst by apply le_n. exact Hfirst. }
  rewrite Ex. reflexivity.
Qed.

(** C6.  A directory entry whose name merely begins with two dots lies
    within the allowed directory, and validation still rejects it: the
    test [relative.startsWith('..')] looks at characters, not at the first
    segment. *)
Theorem validate_rejects_dotdot_prefixed_name (cwd : jsstring) :
  blank (lit "data/..foo") = false
  /\ path.resolve cwd [projectRoot; lit "data/..foo"] = lit "/home/project/data/..foo"
  /\ ALLOWED_DIRS cwd = [lit "/home/project/data"]
  /\ is_within (lit "/home/project/data") (lit "/home/project/data/..foo") = true
  /\ resolveAndValidatePath cwd (lit "data/..foo") =
       Throw (accessDeniedError (lit "data/..foo")).
Proof. repeat split; vm_compute; reflexivity. Qed.

(** ** The edit loop *)

(** A replacement text without dollar signs stands for itself. *)
Lemma GetSubstitution_plain (matched before after template : jsstring) :
  plain template = true ->
  GetSubstitution matched before after template = template.
Proof.
  induction template as [|c t IH]; simpl; intros P; [reflexivity|].
  apply andb_true_iff in P as [Pc Pt]. apply negb_true_iff in Pc.
  rewrite Pc. f_equal. now apply IH.
Qed.

(** With an empty search text every position matches: the replacement is
    put before each code unit and at the end. *)
Lemma replaceAll_scan_empty_search (whole replaceValue : jsstring) (pos : nat) (s : jsstring) :
  plain replaceValue = true ->
  replaceAll_scan whole [] replaceValue pos 0 s =
    replaceValue ++ flat_map (fun c => c :: replaceValue) s.
Proof.
  intros P. revert pos. induction s as [|c s IH]; intros pos; simpl.
  - now rewrite GetSubstitution_plain.
  - rewrite GetSubstitution_plain by assumption. now rewrite IH.
Qed.

(** The same for any replacement text: at each offset its expansion there
    is put in. *)
Lemma replaceAll_scan_empty_search_any (whole replaceValue : jsstring) (pos : nat)
      (s : jsstring) :
  replaceAll_scan whole [] replaceValue pos 0 s =
    inserted (expansion_at whole replaceValue) pos s.
Proof.
  revert pos. induction s as [|c s IH]; intros pos; simpl;
    unfold expansion_at; rewrite Nat.add_0_r; [reflexivity|].
  now rewrite IH.
Qed.

Lemma replaceAll_empty_empty (s : jsstring) : replaceAll s [] [] = s.
Proof.
  unfold replaceAll. rewrite replaceAll_scan_empty_search by reflexivity.
  simpl. induction s as [|c s IH]; simpl; [reflexivity|now rewrite IH].
Qed.

Lemma edit_loop_snoc (currentContent : jsstring) (edits : list Edit) (edit : Edit) :
  edit_loop currentContent (edits ++ [edit]) =
    edit_step currentContent (edit_loop currentContent edits) edit.
Proof. unfold edit_loop. now rewrite fold_left_app. Qed.

(** C7 (as amended).  An edit with an empty search text, wherever it
    stands in the list, is never recorded as not found: it is recorded as
    applied or not recorded at all.  It rewrites the working content with
    [replaceAll], which for an empty search text puts the expansion of the
    replacement text (its dollar patterns replaced, the matched text
    being empty) before every code unit and at the end.  A replacement
    text without a dollar sign is its own expansion, so it is the text
    put in; and the working content stays as it was when the replacement
    text is empty. *)
Theorem empty_search_edit (currentContent : jsstring) (earlier : list Edit)
        (replaceText : jsstring) :
  let edit := mkEdit [] replaceText in
  let st := edit_loop currentContent earlier in
  let st' := edit_loop currentContent (earlier ++ [edit]) in
  (appliedEditsInfo st' = appliedEditsInfo st
   \/ appliedEditsInfo st' = appliedEditsInfo st ++ [outcomeInfo Applied edit])
  /\ outcomeInfo Applied edit <> outcomeInfo NotFound edit
  /\ modifiedContent st' = replaceAll (modifiedContent st) [] replaceText
  /\ modifiedContent st' =
       inserted (expansion_at (modifiedContent st) replaceText) 0 (modifiedContent st)
  /\ (plain replaceText = true ->
      (forall pos, expansion_at (modifiedContent st) replaceText pos = replaceText)
      /\ modifiedContent st' =
           replaceText ++ flat_map (fun c => c :: replaceText) (modifiedContent st))
  /\ (replaceText = [] -> modifiedContent st' = modifiedContent st).
Proof.
  intros edit st st'. subst st'. rewrite edit_loop_snoc. fold st.
  assert (M : modifiedContent (edit_step currentContent st edit)
              = replaceAll (modifiedContent st) [] replaceText).
  { unfold edit_step. simpl oldText. simpl newText.
    rewrite includes_empty, orb_true_r, includes_empty. simpl.
    destruct (negb (eqb _ _)); reflexivity. }
  split; [|split; [|split; [|split; [|split]]]].
  - unfold edit_step. simpl oldText. simpl newText.
    rewrite includes_empty, orb_true_r, includes_empty. simpl.
    destruct (negb (eqb _ _)); simpl; auto.
  - discriminate.
  - exact M.
  - rewrite M. unfold replaceAll. apply replaceAll_scan_empty_search_any.
  - intros P. split.
    + intros pos. unfold expansion_at. now apply GetSubstitution_plain.
    + rewrite M. unfold replaceAll. now apply replaceAll_scan_empty_search.
  - intros ->. rewrite M. apply replaceAll_empty_empty.
Qed.

Lemma empty_search_edit_witness :
  plain (lit "x") = true
  /\ modifiedContent (edit_loop (lit "ab") ([] ++ [mkEdit [] (lit "x")])) = lit "xaxbx".
Proof.
  split; [reflexivity|].
  exact (proj2 (proj1 (proj2 (proj2 (proj2 (proj2
           (empty_search_edit (lit "ab") [] (lit "x")))))) eq_refl)).
Defined.

(** C7, as the specification states it, fails: the edit with an empty
    search text and the replacement "x" on the content "ab" gives "xaxbx" and records nothing, where the claim
    has the content unchanged and a not-found line recorded. *)
Lemma empty_search_is_not_skipped :
  let edit := mkEdit [] (lit "x") in
  let st := edit_loop (lit "ab") [edit] in
  modifiedContent st = lit "xaxbx"
  /\ modifiedContent st <> lit "ab"
  /\ appliedEditsInfo st = []
  /\ appliedEditsInfo st <> [outcomeInfo NotFound edit].
Proof. repeat split; vm_compute; discriminate || reflexivity. Qed.

(** C4.  On "foo bar foo" the single edit ("foo" -> "baz") does give the
    content "baz bar baz", but the loop compares it with the same
    replacement made on the original content, finds no difference, and
    records the edit as removed by prior edits, with [changesMade] left
    false. *)
Theorem single_edit_recorded_as_superseded :
  let edit := mkEdit (lit "foo") (lit "baz") in
  edit_loop (lit "foo bar foo") [edit] =
    mkEditState (lit "baz bar baz") false [outcomeInfo SupersededByPriorEdit edit].
Proof. vm_compute. reflexivity. Qed.

(** C5.  On "foo" with the edits ("foo" -> "qux") then ("foo" -> "zzz")
    the final content is "qux", but the recorded outcomes are the other
    way round: the first edit is recorded as removed by prior edits and
    the second, which replaced nothing, as applied. *)
Theorem supersession_outcomes_swapped :
  let edit1 := mkEdit (lit "foo") (lit "qux") in
  let edit2 := mkEdit (lit "foo") (lit "zzz") in
  edit_loop (lit "foo") [edit1; edit2] =
    mkEditState (lit "qux") true
                [outcomeInfo SupersededByPriorEdit edit1; outcomeInfo Applied edit2].
Proof. vm_compute. reflexivity. Qed.

(** ** The handlers *)

Section Handlers.

Context {S : Type} `{FileSystem S}.

Variable cwd : jsstring.

(** C8.  A dry run of [edit_file] leaves the storage as it was and makes
    no storage call other than the one read of the file, whatever the
    edits compute. *)
Theorem edit_file_dry_run_pure (userPath : jsstring) (edits : list Edit) (w : World S) :
  let w' := snd (edit_file cwd userPath edits true w) in
  store w' = store w
  /\ (calls w' = calls w
      \/ exists filePath, calls w' = calls w ++ [CallReadFile filePath]).
Proof.
  unfold edit_file. destruct (resolveAndValidatePath cwd userPath) as [filePath|e].
  - run_async. destruct (readFile filePath (store w)) as [content|e]; simpl.
    + destruct (changesMade _); simpl; eauto.
    + destruct (hasCode e "ENOENT"); simpl; eauto.
  - simpl. auto.
Qed.

(** C10.  With no edits [edit_file] never writes, and when the file can
    be read it reports that nothing changed, in a dry run and in a real
    one. *)
Theorem edit_file_no_edits (userPath : jsstring) (dryRun : bool) (w : World S) :
  let result := edit_file cwd userPath [] dryRun w in
  store (snd result) = store w
  /\ (calls (snd result) = calls w
      \/ exists filePath, calls (snd result) = calls w ++ [CallReadFile filePath])
  /\ (forall filePath content,
        resolveAndValidatePath cwd userPath = Return filePath ->
        readFile filePath (store w) = Return content ->
        let st := mkEditState content false [] in
        fst result =
          Return (okResult (if dryRun then dryRunNoChangeText userPath st
                            else noChangeText userPath st))).
Proof.
  unfold edit_file. destruct (resolveAndValidatePath cwd userPath) as [filePath|e].
  - run_async. destruct (readFile filePath (store w)) as [content|e] eqn:R; simpl.
    + destruct dryRun; simpl; repeat split; eauto;
        intros fp c [= <-] E; rewrite R in E; injection E as <-; reflexivity.
    + destruct (hasCode e "ENOENT"); simpl; repeat split; eauto;
        intros fp c [= <-] E; rewrite R in E; discriminate.
  - simpl. repeat split; auto. discriminate.
Qed.

Lemma allSettled_read_attempts (userPaths : list jsstring) (w : World S) :
  allSettled (map (read_attempt cwd) userPaths) w =
    (Return (map (fun userPath =>
                    fulfilled
                      match resolveAndValidatePath cwd userPath with
                      | Throw error => ReadFailure userPath (message error)
                      | Return filePath =>
                          match readFile filePath (store w) with
                          | Return content => ReadSuccess userPath content
                          | Throw error => ReadFailure userPath (message error)
                          end
                      end) userPaths),
     mkWorld (store w) (calls w ++ path_reads cwd userPaths)).
Proof.
  revert w. induction userPaths as [|p ps IH]; intros w.
  - simpl. unfold ret. rewrite app_nil_r. now destruct w.
  - cbn [map allSettled path_reads flat_map].
    unfold read_attempt at 1.
    destruct (resolveAndValidatePath cwd p) as [filePath|e]; run_async.
    + destruct (readFile filePath (store w)) as [content|e]; simpl;
        unfold bind; rewrite IH; simpl; now rewrite <- app_assoc.
    + unfold bind. rewrite IH. reflexivity.
Qed.

(** C9.  [read_multiple_files] answers with the blocks of the requested
    paths, one for each path and in the order of the request, joined by
    blank lines; each block is the content block or the error block of
    its own path, so a failure on one path leaves the others as they
    are.  The storage is only read, once for each accepted path. *)
Theorem read_multiple_files_blocks (userPaths : list jsstring) (w : World S) :
  read_multiple_files cwd userPaths w =
    (Return (okResult (JS.join (NL ++ NL)
                               (map (path_block cwd (store w)) userPaths))),
     mkWorld (store w) (calls w ++ path_reads cwd userPaths))
  /\ length (map (path_block cwd (store w)) userPaths) = length userPaths.
Proof.
  split; [|apply length_map].
  unfold read_multiple_files, bind. rewrite allSettled_read_attempts.
  unfold ret. simpl. rewrite map_map. do 4 f_equal. apply map_ext. intros p.
  unfold path_block.
  destruct (resolveAndValidatePath cwd p) as [filePath|e]; [|reflexivity].
  destruct (readFile filePath (store w)); reflexivity.
Qed.

Lemma read_multiple_files_world (userPaths : list jsstring) (w : World S) :
  snd (read_multiple_files cwd userPaths w) =
    mkWorld (store w) (calls w ++ path_reads cwd userPaths).
Proof.
  unfold read_multiple_files, bind. now rewrite allSettled_read_attempts.
Qed.

(** Validation fails in one of two ways. *)
Lemma validate_throws (userPath : jsstring) (e : JsError) :
  resolveAndValidatePath cwd userPath = Throw e ->
  e = invalidPathError \/ e = accessDeniedError userPath.
Proof.
  unfold resolveAndValidatePath. destruct (eqb (trim userPath) []).
  - intros [= <-]. now left.
  - destruct (negb _); [|discriminate]. intros [= <-]. now right.
Qed.

Lemma validate_returns (userPath r : jsstring) :
  resolveAndValidatePath cwd userPath = Return r ->
  r = path.resolve cwd [projectRoot; userPath].
Proof.
  unfold resolveAndValidatePath. destruct (eqb (trim userPath) []); [discriminate|].
  destruct (negb _); [discriminate|]. now intros [= <-].
Qed.

(** The calls [create_directory] makes are [mkdir] calls: on the accepted
    path, or, through the parent fallback, on the unvalidated resolution
    of the path. *)
Lemma create_directory_mkdir (userPath q : jsstring) (w : World S) :
  In (CallMkdir q) (calls (snd (create_directory cwd userPath w))) ->
  In (CallMkdir q) (calls w)
  \/ resolveAndValidatePath cwd userPath = Return q
  \/ (resolveAndValidatePath cwd userPath = Throw (accessDeniedError userPath)
      /\ (exists r, resolveAndValidatePath cwd (parentPath userPath ++ lit "/dummy")
                    = Return r)
      /\ q = path.resolve cwd [lit "/home/project"; userPath]).
Proof.
  unfold create_directory.
  destruct (resolveAndValidatePath cwd userPath) as [dirPath|e] eqn:V.
  - pose proof (validate_returns _ _ V) as Er.
    run_async. destruct (mkdir dirPath (store w)) as [[[]|e] s1]; simpl.
    + mkdir_cases.
    + destruct (includes (message e) (lit "Access denied")); simpl.
      * destruct (resolveAndValidatePath cwd (parentPath userPath ++ lit "/dummy"));
          simpl.
        -- destruct (mkdir _ s1) as [[[]|e'] s2]; simpl; mkdir_cases.
        -- mkdir_cases.
      * mkdir_cases.
  - run_async. destruct (validate_throws _ _ V) as [-> | ->].
    + simpl. auto.
    + destruct (includes _ _); simpl; [|auto].
      destruct (resolveAndValidatePath cwd (parentPath userPath ++ lit "/dummy"))
        as [r|e'] eqn:P; simpl; [|auto].
      destruct (mkdir _ (store w)) as [[[]|e'] s1]; simpl; mkdir_cases.
Qed.

(** X23.  A path the validator rejects stops a handler before it touches
    the storage: for every handler but [create_directory] the storage
    and the call log are then as they were ([read_multiple_files] reads
    exactly the accepted paths, [move_file] needs both of its paths
    accepted).  [create_directory] stops too unless its parent fallback
    applies: it calls [mkdir] only at the accepted path, or, when the
    path is rejected with the access-denied error and its parent with a
    placeholder child is accepted, at the resolution of the path. *)
Theorem validation_precedes_storage (w : World S) :
  (forall p e, resolveAndValidatePath cwd p = Throw e ->
               snd (read_file cwd p w) = w)
  /\ (forall ps, snd (read_multiple_files cwd ps w)
                 = mkWorld (store w) (calls w ++ path_reads cwd ps))
  /\ (forall p content e, resolveAndValidatePath cwd p = Throw e ->
                          snd (write_file cwd p content w) = w)
  /\ (forall p edits dryRun e, resolveAndValidatePath cwd p = Throw e ->
                               snd (edit_file cwd p edits dryRun w) = w)
  /\ (forall p e, resolveAndValidatePath cwd p = Throw e ->
                  snd (list_directory cwd p w) = w)
  /\ (forall src dst e,
        validateSourcePath cwd src = Throw e
        \/ resolveAndValidatePath cwd dst = Throw e ->
        snd (move_file cwd src dst w) = w)
  /\ (forall p pattern excludePatterns e,
        resolveAndValidatePath cwd p = Throw e ->
        snd (search_files cwd p pattern excludePatterns w) = w)
  /\ (forall p e, resolveAndValidatePath cwd p = Throw e ->
                  snd (get_file_info cwd p w) = w)
  /\ (forall p e,
        resolveAndValidatePath cwd p = Throw e ->
        (forall r, resolveAndValidatePath cwd (parentPath p ++ lit "/dummy")
                   <> Return r) ->
        snd (create_directory cwd p w) = w)
  /\ (forall p q,
        In (CallMkdir q) (calls (snd (create_directory cwd p w))) ->
        In (CallMkdir q) (calls w)
        \/ resolveAndValidatePath cwd p = Return q
        \/ (resolveAndValidatePath cwd p = Throw (accessDeniedError p)
            /\ (exists r, resolveAndValidatePath cwd (parentPath p ++ lit "/dummy")
                          = Return r)
            /\ q = path.resolve cwd [lit "/home/project"; p])).
Proof.
  repeat match goal with |- _ /\ _ => split end.
  - intros p e V. unfold read_file. run_async. now rewrite V.
  - intros ps. apply read_multiple_files_world.
  - intros p content e V. unfold write_file. run_async. now rewrite V.
  - intros p edits dryRun e V. unfold edit_file. now rewrite V.
  - intros p e V. unfold list_directory. run_async. rewrite V.
    destruct (hasCode e "ENOENT"); [|destruct (hasCode e "ENOTDIR")]; reflexivity.
  - intros src dst e V. unfold move_file, validateSourcePath in *. run_async.
    destruct V as [V|V].
    + now rewrite V.
    + destruct (resolveAndValidatePath cwd src); [now rewrite V|reflexivity].
  - intros p pattern excludePatterns e V. unfold search_files. run_async. now rewrite V.
  - intros p e V. unfold get_file_info. run_async. rewrite V.
    destruct (hasCode e "ENOENT"); reflexivity.
  - intros p e V P. unfold create_directory. run_async. rewrite V.
    destruct (includes _ _); [|reflexivity].
    destruct (resolveAndValidatePath cwd (parentPath p ++ lit "/dummy")) as [r|e'] eqn:Q;
      [now destruct (P r)|reflexivity].
  - intros p q. apply create_directory_mkdir.
Qed.

End Handlers.

Lemma edit_file_no_edits_witness :
  let cwd := lit "/home/project" in
  let file := lit "/home/project/data/notes.txt" in
  let w := MemFs.start [(file, MemFs.FileNode (lit "hello"))] in
  resolveAndValidatePath cwd (lit "data/notes.txt") = Return file
  /\ readFile file (store w) = Return (lit "hello")
  /\ fst (edit_file cwd (lit "data/notes.txt") [] false w) =
       Return (okResult (noChangeText (lit "data/notes.txt")
                                      (mkEditState (lit "hello") false []))).
Proof.
  intros cwd file w.
  assert (V : resolveAndValidatePath cwd (lit "data/notes.txt") = Return file)
    by (vm_compute; reflexivity).
  assert (R : readFile file (store w) = Return (lit "hello"))
    by (vm_compute; reflexivity).
  split; [exact V|]. split; [exact R|].
  exact (proj2 (proj2 (edit_file_no_edits cwd (lit "data/notes.txt") false w))
               file (lit "hello") V R).
Defined.

Lemma validation_precedes_storage_witness :
  let cwd := lit "/home/project" in
  let w := MemFs.start [] in
  resolveAndValidatePath cwd (lit "/etc/passwd")
    = Throw (accessDeniedError (lit "/etc/passwd"))
  /\ snd (read_file cwd (lit "/etc/passwd") w) = w
  /\ snd (write_file cwd (lit "/etc/passwd") (lit "x") w) = w
  /\ snd (edit_file cwd (lit "/etc/passwd") [] false w) = w
  /\ snd (list_directory cwd (lit "/etc/passwd") w) = w
  /\ snd (move_file cwd (lit "data/a") (lit "/etc/passwd") w) = w
  /\ snd (search_files cwd (lit "/etc/passwd") (lit "*") [] w) = w
  /\ snd (get_file_info cwd (lit "/etc/passwd") w) = w
  /\ snd (create_directory cwd (lit "/etc/passwd") w) = w.
Proof.
  intros cwd w.
  assert (V : resolveAndValidatePath cwd (lit "/etc/passwd")
              = Throw (accessDeniedError (lit "/etc/passwd")))
    by (vm_compute; reflexivity).
  destruct (validation_precedes_storage cwd w)
    as (Hread & _ & Hwrite & Hedit & Hlist & Hmove & Hsearch & Hinfo & Hcreate & _).
  split; [exact V|].
  split; [exact (Hread _ _ V)|].
  split; [exact (Hwrite _ _ _ V)|].
  split; [exact (Hedit _ _ _ _ V)|].
  split; [exact (Hlist _ _ V)|].
  split; [exact (Hmove _ _ _ (or_intror V))|].
  split; [exact (Hsearch _ _ _ _ V)|].
  split; [exact (Hinfo _ _ V)|].
  apply (Hcreate _ _ V). intros r. vm_compute. discriminate.
Defined.

(** C2.  [create_directory] makes directories for paths the validator
    rejects.  For "data/.." the validator throws the access-denied error,
    and the parent fallback then calls [mkdir] on "/home/project", which
    lies within no allowed directory, and reports the directory as
    ensured: a directory is made outside the allowed directories, where
    the handler's comment says "but not outside".  For "data/..foo" the
    validator throws as well, and the fallback makes the directory
    all the same. *)
Theorem create_directory_without_acceptance :
  let cwd := lit "/home/project" in
  (let p := lit "data/..foo" in
   resolveAndValidatePath cwd p = Throw (accessDeniedError p)
   /\ create_directory cwd p (MemFs.start []) =
        (Return (okResult (ensuredText p)),
         mkWorld [(lit "/home/project/data/..foo", MemFs.DirNode)]
                 [CallMkdir (lit "/home/project/data/..foo")]))
  /\
  (let p := lit "data/.." in
   resolveAndValidatePath cwd p = Throw (accessDeniedError p)
   /\ create_directory cwd p (MemFs.start []) =
        (Return (okResult (ensuredText p)),
         mkWorld [(lit "/home/project", MemFs.DirNode)]
                 [CallMkdir (lit "/home/project")])
   /\ path.resolve cwd [projectRoot; p] = lit "/home/project"
   /\ forallb (fun d => negb (is_within d (lit "/home/project")))
              (ALLOWED_DIRS cwd) = true).
Proof. repeat split; vm_compute; reflexivity. Qed.

Example read_multiple_files_sample :
  let cwd := lit "/home/project" in
  let fs := [(lit "/home/project/data/a.txt", MemFs.FileNode (lit "A"))] in
  read_multiple_files cwd [lit "/etc/passwd"; lit "data/a.txt"; lit "data/b.txt"]
                      (MemFs.start fs) =
    (Return (okResult
       (JS.join (NL ++ NL)
          [error_block (lit "/etc/passwd")
             (message (accessDeniedError (lit "/etc/passwd")));
           file_block (lit "data/a.txt") (lit "A");
           error_block (lit "data/b.txt")
             (message (MemFs.fsError "ENOENT" (lit "/home/project/data/b.txt")))])),
     mkWorld fs [CallReadFile (lit "/home/project/data/a.txt");
                 CallReadFile (lit "/home/project/data/b.txt")]).
Proof. vm_compute. reflexivity. Qed.

(** C3.  On a file holding "foo bar foo" the edit ("foo" -> "baz")
    computes the new content "baz bar baz", yet [changesMade] stays false:
    the handler reports that nothing changed and writes nothing.  And on
    a file holding "ab" the edits ("a" -> "x"), ("b" -> "b"), ("x" -> "a")
    end on the original content with [changesMade] true, and the file is
    written. *)
Theorem edit_file_changes_flag_wrong :
  let cwd := lit "/home/project" in
  let file := lit "/home/project/data/notes.txt" in
  (let fs := [(file, MemFs.FileNode (lit "foo bar foo"))] in
   let edits := [mkEdit (lit "foo") (lit "baz")] in
   let st := edit_loop (lit "foo bar foo") edits in
   modifiedContent st = lit "baz bar baz"
   /\ changesMade st = false
   /\ edit_file cwd (lit "data/notes.txt") edits false (MemFs.start fs) =
        (Return (okResult (noChangeText (lit "data/notes.txt") st)),
         mkWorld fs [CallReadFile file]))
  /\
  (let fs := [(file, MemFs.FileNode (lit "ab"))] in
   let edits := [mkEdit (lit "a") (lit "x"); mkEdit (lit "b") (lit "b");
                 mkEdit (lit "x") (lit "a")] in
   let st := edit_loop (lit "ab") edits in
   modifiedContent st = lit "ab"
   /\ changesMade st = true
   /\ edit_file cwd (lit "data/notes.txt") edits false (MemFs.start fs) =
        (Return (okResult (editedText (lit "data/notes.txt") st)),
         mkWorld fs [CallReadFile file; CallWriteFile file (lit "ab")])).
Proof. repeat split; vm_compute; reflexivity. Qed.

(** * Further properties *)

(** ** The validator, beyond the claims *)

Lemma accessDenied_not_invalid (userPath : jsstring) :
  accessDeniedError userPath <> invalidPathError.
Proof. unfold accessDeniedError, invalidPathError, Error. intros [= E]. Qed.

Lemma startsWith_app_l (s p tl : jsstring) :
  startsWith s p = true -> startsWith (s ++ tl) p = true.
Proof.
  revert s. induction p as [|x p IH]; intros s; [reflexivity|].
  destruct s as [|y s]; simpl; [discriminate|].
  intros E. apply andb_true_iff in E as [-> E]. now apply IH.
Qed.

Lemma absolute_of_inj (F T : list jsstring) :
  Forall (fun s => kept s = true) F ->
  Forall (fun s => kept s = true) T ->
  absolute_of F = absolute_of T -> F = T.
Proof.
  intros KF KT E.
  rewrite <- (segments_absolute_of F KF), <- (segments_absolute_of T KT).
  now rewrite E.
Qed.

(** What the test of [resolveAndValidatePath] computes on resolved paths:
    the allowed directory leads the path, and the first segment below it
    does not begin with two dots. *)
Lemma isInside_spec (cwd : jsstring) (F T : list jsstring) :
  Forall (fun s => kept s = true) F ->
  Forall (fun s => kept s = true) T ->
  isInside cwd (absolute_of F) (absolute_of T) =
    prefixb F T && passes_dotdot_test (nth_error T (length F)).
Proof.
  intros KF KT. destruct (prefixb F T) eqn:P; cbn [andb].
  - apply prefixb_app in P as [rest ->].
    destruct rest as [|first rest'].
    + rewrite app_nil_r.
      rewrite (proj2 (nth_error_None F (length F))) by apply le_n.
      cbn [passes_dotdot_test].
      rewrite <- (app_nil_r F) at 2. apply isInside_complete; auto.
    + rewrite nth_error_app2, Nat.sub_diag by apply le_n.
      cbn [nth_error passes_dotdot_test].
      destruct (startsWith first (lit "..")) eqn:D; cbn [negb].
      * unfold isInside. rewrite relative_absolute_of by assumption.
        destruct (eqb (absolute_of F) (absolute_of (F ++ first :: rest'))) eqn:E.
        -- apply eqb_eq in E. apply absolute_of_inj in E; try assumption.
           apply (f_equal (@length jsstring)) in E.
           rewrite length_app in E. simpl in E. lia.
        -- rewrite relative_segments_descends.
           assert (Hhead : exists tl, JS.join [SLASH] (first :: rest') = first ++ tl).
           { destruct rest' as [|seg rest''].
             - exists []. simpl. now rewrite app_nil_r.
             - eexists. reflexivity. }
           destruct Hhead as [tl ->].
           cbv zeta. rewrite (startsWith_app_l _ _ tl D). reflexivity.
      * apply isInside_complete; auto.
  - destruct (isInside cwd (absolute_of F) (absolute_of T)) eqn:I; [|reflexivity].
    apply isInside_sound in I; try assumption. congruence.
Qed.

Section ValidatorFacts.

Variable cwd : jsstring.

Lemma isInside_allowed (d p : jsstring) :
  In d (ALLOWED_DIRS cwd) ->
  let r := path.resolve cwd [projectRoot; p] in
  isInside cwd d r = is_within d r && passes_dotdot_test (first_below d r).
Proof.
  intros Hd r. subst r.
  destruct (allowed_dirs_form cwd d Hd) as [F [KF ->]].
  destruct (resolve_against_root cwd p) as [T [KT ->]].
  unfold first_below. rewrite is_within_absolute_of by assumption.
  rewrite !segments_absolute_of by assumption.
  now apply isInside_spec.
Qed.

(** X1.  [resolveAndValidatePath] throws the invalid-path error exactly on
    the empty and the white-space-only strings; every other rejection is
    the access-denied error for the caller's string, which is a different
    error. *)
Theorem validate_invalid_iff_blank (userPath : jsstring) :
  (resolveAndValidatePath cwd userPath = Throw invalidPathError
   <-> blank userPath = true)
  /\ (forall e, resolveAndValidatePath cwd userPath = Throw e ->
                blank userPath = false ->
                e = accessDeniedError userPath)
  /\ accessDeniedError userPath <> invalidPathError.
Proof.
  split; [|split].
  - unfold resolveAndValidatePath. rewrite trim_nil_iff.
    destruct (blank userPath); split; try reflexivity; try discriminate.
    destruct (negb _); [|discriminate].
    intros E. exfalso. apply (accessDenied_not_invalid userPath). congruence.
  - intros e. unfold resolveAndValidatePath. rewrite trim_nil_iff.
    destruct (blank userPath); [discriminate|].
    destruct (negb _); [|discriminate].
    intros E _. congruence.
  - apply accessDenied_not_invalid.
Qed.

(** X2.  [resolveAndValidatePath] returns a path exactly when the string
    is not blank, the path is its resolution against the project root,
    that resolution lies within an allowed directory, and its first
    segment below that directory does not begin with two dots. *)
Theorem validate_accepts_iff (userPath r : jsstring) :
  resolveAndValidatePath cwd userPath = Return r
  <-> blank userPath = false
      /\ r = path.resolve cwd [projectRoot; userPath]
      /\ exists d, In d (ALLOWED_DIRS cwd)
                   /\ is_within d r = true
                   /\ passes_dotdot_test (first_below d r) = true.
Proof.
  unfold resolveAndValidatePath. rewrite trim_nil_iff.
  destruct (blank userPath).
  - split; [discriminate|]. intros [B _]. discriminate.
  - destruct (existsb _ _) eqn:Ex; simpl.
    + apply existsb_exists in Ex as [d [Hd I]].
      rewrite (isInside_allowed d userPath Hd) in I.
      apply andb_true_iff in I as [W D].
      split.
      * intros [= <-]. repeat split. exists d. auto.
      * intros [_ [-> _]]. reflexivity.
    + split; [discriminate|]. intros [_ [-> [d [Hd [W D]]]]].
      assert (I : isInside cwd d (path.resolve cwd [projectRoot; userPath]) = true).
      { rewrite (isInside_allowed d userPath Hd). now rewrite W, D. }
      assert (Ex' : existsb (fun allowedDir =>
                               isInside cwd allowedDir
                                        (path.resolve cwd [projectRoot; userPath]))
                            (ALLOWED_DIRS cwd) = true).
      { apply existsb_exists. exists d. auto. }
      congruence.
Qed.

Lemma resolve_root_absolute_of (segs : list jsstring) :
  Forall (fun s => kept s = true) segs ->
  path.resolve cwd [projectRoot; absolute_of segs] = absolute_of segs.
Proof.
  intros K. unfold path.resolve. simpl rev.
  unfold path.resolve_loop. unfold absolute_of at 1 2 3.
  cbv beta iota. unfold path.isAbsolute. rewrite N.eqb_refl.
  unfold path.normalizeString. simpl negb.
  change ((SLASH :: JS.join [SLASH] segs) ++ [SLASH] ++ [])
    with (absolute_of segs ++ [SLASH]).
  rewrite normalize_segments_absolute_of; auto.
Qed.

(** X3.  A path that validation returns validates to itself: validating
    twice is validating once. *)
Theorem validate_idempotent (userPath r : jsstring) :
  resolveAndValidatePath cwd userPath = Return r ->
  resolveAndValidatePath cwd r = Return r.
Proof.
  unfold resolveAndValidatePath. rewrite !trim_nil_iff.
  destruct (blank userPath); [discriminate|].
  destruct (existsb _ _) eqn:Ex; simpl; [|discriminate].
  intros [= <-].
  destruct (resolve_against_root cwd userPath) as [T [KT E]].
  rewrite E in *. rewrite resolve_root_absolute_of by assumption.
  change (blank (absolute_of T)) with false. cbv zeta.
  unfold ALLOWED_DIRS in *. cbn [existsb] in *. rewrite Ex. reflexivity.
Qed.

End ValidatorFacts.

Lemma validate_idempotent_witness :
  resolveAndValidatePath (lit "/srv") (lit "data/a/../b.txt")
    = Return (lit "/home/project/data/b.txt")
  /\ resolveAndValidatePath (lit "/srv") (lit "/home/project/data/b.txt")
     = Return (lit "/home/project/data/b.txt").
Proof.
  assert (V : resolveAndValidatePath (lit "/srv") (lit "data/a/../b.txt")
              = Return (lit "/home/project/data/b.txt")) by (vm_compute; reflexivity).
  split; [exact V|].
  exact (validate_idempotent (lit "/srv") (lit "data/a/../b.txt")
                             (lit "/home/project/data/b.txt") V).
Defined.

Lemma resolve_root_any_cwd (cwd cwd' p : jsstring) :
  path.resolve cwd [projectRoot; p] = path.resolve cwd' [projectRoot; p].
Proof.
  unfold path.resolve. simpl rev.
  assert (L : path.resolve_loop cwd [p; projectRoot] []
              = path.resolve_loop cwd' [p; projectRoot] []).
  { destruct p as [|c p]; simpl; [reflexivity|].
    destruct (N.eqb c SLASH); reflexivity. }
  now rewrite L.
Qed.

(** X4.  The outcome of validation does not depend on the working
    directory of the process: the project root is absolute. *)
Theorem validate_any_cwd (cwd cwd' userPath : jsstring) :
  resolveAndValidatePath cwd userPath = resolveAndValidatePath cwd' userPath.
Proof.
  unfold resolveAndValidatePath.
  rewrite (resolve_root_any_cwd cwd cwd' userPath).
  destruct (resolve_against_root cwd' userPath) as [T [KT ->]].
  assert (A : forall c, ALLOWED_DIRS c = [absolute_of [lit "home"; lit "project"; lit "data"]])
    by (intros c; vm_compute; reflexivity).
  rewrite (A cwd), (A cwd'). simpl existsb.
  assert (KF : Forall (fun s => kept s = true) [lit "home"; lit "project"; lit "data"])
    by (repeat constructor).
  rewrite !isInside_spec by assumption. reflexivity.
Qed.

(** ** The edit loop, beyond the claims *)

Lemma edit_step_modified (currentContent : jsstring) (st : EditState) (edit : Edit) :
  modifiedContent (edit_step currentContent st edit) =
    replaceAll (modifiedContent st) (oldText edit) (newText edit).
Proof.
  unfold edit_step.
  destruct (negb (Nat.eqb _ _) || includes currentContent (oldText edit));
    [|reflexivity].
  destruct (negb (eqb _ _)); [reflexivity|].
  destruct (negb (includes _ _) && includes _ _); [reflexivity|].
  destruct (negb (includes _ _)); reflexivity.
Qed.

(** X5.  Whatever the loop records, the working content it ends with is
    the original content with the edits made in order, each on the result
    of the one before. *)
Theorem edit_loop_content (currentContent : jsstring) (edits : list Edit) :
  modifiedContent (edit_loop currentContent edits) =
    replaceAll_each currentContent edits.
Proof.
  unfold edit_loop, replaceAll_each.
  assert (G : forall st,
             modifiedContent (fold_left (edit_step currentContent) edits st) =
             fold_left (fun s edit => replaceAll s (oldText edit) (newText edit))
                       edits (modifiedContent st)).
  { induction edits as [|edit edits IH]; intros st; simpl; [reflexivity|].
    now rewrite IH, edit_step_modified. }
  apply (G (mkEditState currentContent false [])).
Qed.

(** The first edit of a request is compared with itself: it never sets
    [changesMade]. *)
Lemma first_edit_not_counted (currentContent : jsstring) (edit : Edit) :
  changesMade (edit_step currentContent
                         (mkEditState currentContent false []) edit) = false.
Proof.
  unfold edit_step. simpl modifiedContent. rewrite eqb_refl. simpl negb.
  destruct (negb (Nat.eqb _ _) || includes currentContent (oldText edit));
    [|reflexivity].
  destruct (negb (includes _ _) && includes _ _); [reflexivity|].
  destruct (negb (includes _ _)); reflexivity.
Qed.

Lemma indexOf_none (s search : jsstring) :
  indexOf s search = None ->
  startsWith s search = false
  /\ match s with [] => True | _ :: s' => indexOf s' search = None end.
Proof.
  destruct s as [|c s']; simpl.
  - destruct (startsWith [] search); [discriminate|auto].
  - destruct (startsWith (c :: s') search); [discriminate|].
    destruct (indexOf s' search); [discriminate|auto].
Qed.

Lemma includes_false_indexOf (s search : jsstring) :
  includes s search = false -> indexOf s search = None.
Proof. unfold includes. destruct (indexOf s search); [discriminate|reflexivity]. Qed.

Lemma replaceAll_scan_absent (whole search replaceValue : jsstring) (pos : nat)
      (s : jsstring) :
  indexOf s search = None ->
  replaceAll_scan whole search replaceValue pos 0 s = s.
Proof.
  revert pos. induction s as [|c s IH]; intros pos N;
    apply indexOf_none in N as [P N]; simpl; rewrite P; [reflexivity|].
  now rewrite IH.
Qed.

(** [replaceAll] leaves a string without an occurrence as it is. *)
Lemma replaceAll_absent (s search replaceValue : jsstring) :
  includes s search = false -> replaceAll s search replaceValue = s.
Proof.
  intros I. unfold replaceAll. apply replaceAll_scan_absent.
  now apply includes_false_indexOf.
Qed.

(** X6.  An edit whose search text occurs neither in the original content
    nor in the working content is recorded as skipped, and leaves the
    working content and [changesMade] as they were. *)
Theorem absent_edit_skipped (currentContent : jsstring) (st : EditState) (edit : Edit) :
  includes currentContent (oldText edit) = false ->
  includes (modifiedContent st) (oldText edit) = false ->
  edit_step currentContent st edit =
    mkEditState (modifiedContent st) (changesMade st)
                (appliedEditsInfo st ++ [outcomeInfo NotFound edit]).
Proof.
  intros Ic Im. unfold edit_step.
  rewrite (replaceAll_absent _ _ (newText edit) Im), Ic, Nat.eqb_refl.
  reflexivity.
Qed.

Lemma absent_edit_skipped_witness :
  let edit := mkEdit (lit "zzz") (lit "y") in
  let st := edit_loop (lit "foo") [mkEdit (lit "o") (lit "0")] in
  includes (lit "foo") (oldText edit) = false
  /\ includes (modifiedContent st) (oldText edit) = false
  /\ edit_step (lit "foo") st edit =
       mkEditState (modifiedContent st) (changesMade st)
                   (appliedEditsInfo st ++ [outcomeInfo NotFound edit]).
Proof.
  split; [reflexivity|]. split; [reflexivity|].
  exact (absent_edit_skipped (lit "foo")
           (edit_loop (lit "foo") [mkEdit (lit "o") (lit "0")])
           (mkEdit (lit "zzz") (lit "y")) eq_refl eq_refl).
Defined.

Lemma isReplacedLine_replaced (edit : Edit) : isReplacedLine (replacedInfo edit) = true.
Proof. unfold isReplacedLine, replacedInfo. apply startsWith_app. Qed.

Lemma isReplacedLine_removed (edit : Edit) : isReplacedLine (removedInfo edit) = false.
Proof. reflexivity. Qed.

Lemma isReplacedLine_skipped (edit : Edit) : isReplacedLine (skippedInfo edit) = false.
Proof. reflexivity. Qed.

Lemma existsb_snoc (f : jsstring -> bool) (l : list jsstring) (x : jsstring) :
  existsb f (l ++ [x]) = existsb f l || f x.
Proof. rewrite existsb_app. simpl. now rewrite orb_false_r. Qed.

Lemma edit_step_flag (currentContent : jsstring) (st : EditState) (edit : Edit) :
  changesMade st = existsb isReplacedLine (appliedEditsInfo st) ->
  changesMade (edit_step currentContent st edit) =
    existsb isReplacedLine (appliedEditsInfo (edit_step currentContent st edit)).
Proof.
  intros Inv. unfold edit_step.
  destruct (negb (Nat.eqb _ _) || includes currentContent (oldText edit)).
  - destruct (negb (eqb _ _)).
    + simpl. now rewrite existsb_snoc, isReplacedLine_replaced, orb_true_r.
    + destruct (negb (includes _ _) && includes _ _).
      * simpl. now rewrite existsb_snoc, isReplacedLine_removed, orb_false_r.
      * destruct (negb (includes _ _)); simpl; [|assumption].
        now rewrite existsb_snoc, isReplacedLine_skipped, orb_false_r.
  - simpl. now rewrite existsb_snoc, isReplacedLine_skipped, orb_false_r.
Qed.

(** X7.  [changesMade] is true at the end of the loop exactly when some
    line of [appliedEditsInfo] reports a replacement. *)
Theorem changesMade_iff_replaced_line (currentContent : jsstring) (edits : list Edit) :
  changesMade (edit_loop currentContent edits) =
    existsb isReplacedLine (appliedEditsInfo (edit_loop currentContent edits)).
Proof.
  unfold edit_loop.
  assert (Inv : changesMade (mkEditState currentContent false [])
                = existsb isReplacedLine
                          (appliedEditsInfo (mkEditState currentContent false [])))
    by reflexivity.
  revert Inv. generalize (mkEditState currentContent false []).
  induction edits as [|edit edits IH]; intros st Inv; simpl; [assumption|].
  apply IH. now apply edit_step_flag.
Qed.

(** X8.  The loop records exactly one line for an edit, with one
    exception: when the search text occurs in the original content, still
    occurs in the new working content, and that content equals the same
    replacement made on the original content, no line is recorded. *)
Theorem edit_step_lines (currentContent : jsstring) (st : EditState) (edit : Edit) :
  let modified' := replaceAll (modifiedContent st) (oldText edit) (newText edit) in
  let silent :=
    includes currentContent (oldText edit)
    && includes modified' (oldText edit)
    && eqb modified' (replaceAll currentContent (oldText edit) (newText edit)) in
  (silent = true ->
   appliedEditsInfo (edit_step currentContent st edit) = appliedEditsInfo st)
  /\ (silent = false ->
      exists line,
        appliedEditsInfo (edit_step currentContent st edit)
        = appliedEditsInfo st ++ [line]
        /\ (line = outcomeInfo Applied edit
            \/ line = outcomeInfo SupersededByPriorEdit edit
            \/ line = outcomeInfo NotFound edit)).
Proof.
  cbv zeta. unfold edit_step.
  destruct (includes currentContent (oldText edit)) eqn:Ic;
    destruct (includes (replaceAll (modifiedContent st) (oldText edit) (newText edit))
                       (oldText edit)) eqn:Im;
    destruct (eqb (replaceAll (modifiedContent st) (oldText edit) (newText edit))
                  (replaceAll currentContent (oldText edit) (newText edit))) eqn:Er;
    rewrite ?orb_true_r; cbn [negb andb orb];
    try (destruct (negb (Nat.eqb _ _)); cbn [negb andb orb]);
    (split;
     [ first [discriminate | intros _; reflexivity]
     | first [discriminate
             | intros _; eexists; split; [reflexivity | cbn; auto]] ]).
Qed.

(** ** The handlers, beyond the claims *)

Section HandlerFacts.

Context {S : Type} `{FileSystem S}.

Variable cwd : jsstring.

Lemma validate_returns_within (userPath r : jsstring) :
  resolveAndValidatePath cwd userPath = Return r ->
  exists d, In d (ALLOWED_DIRS cwd) /\ is_within d r = true.
Proof.
  unfold resolveAndValidatePath. destruct (eqb (trim userPath) []); [discriminate|].
  destruct (existsb _ _) eqn:Ex; simpl; [|discriminate].
  intros [= <-]. apply existsb_exists in Ex as [d [Hd I]].
  rewrite (isInside_allowed cwd d userPath Hd) in I.
  apply andb_true_iff in I as [W _]. exists d. auto.
Qed.


(** X9.  When the path validates and the file can be read, a dry run and
    a real run decide alike: the dry run previews a change exactly when
    the real run writes, and the content previewed is the content
    written.  The dry run itself only reads. *)
Theorem edit_file_dry_run_agrees (userPath filePath content : jsstring)
        (edits : list Edit) (w : World S) :
  resolveAndValidatePath cwd userPath = Return filePath ->
  readFile filePath (store w) = Return content ->
  let st := edit_loop content edits in
  edit_file cwd userPath edits true w =
    (Return (okResult (if changesMade st then dryRunChangeText userPath st
                       else dryRunNoChangeText userPath st)),
     mkWorld (store w) (calls w ++ [CallReadFile filePath]))
  /\ calls (snd (edit_file cwd userPath edits false w)) =
       calls w ++ CallReadFile filePath
               :: (if changesMade st
                   then [CallWriteFile filePath (modifiedContent st)] else []).
Proof.
  intros V R st. unfold edit_file. rewrite V. run_async. rewrite R. simpl.
  fold st. destruct (changesMade st); simpl; split; try reflexivity.
  destruct (writeFile filePath (modifiedContent st) (store w)) as [[[]|e] s1]; simpl.
  - now rewrite <- app_assoc.
  - destruct (hasCode e "ENOENT"); simpl; now rewrite <- app_assoc.
Qed.

(** X10.  A request with a single edit never writes: the edit is compared
    with itself, [changesMade] stays false, and the storage is left as it
    was, in a dry run and in a real one. *)
Theorem edit_file_single_edit_never_writes (userPath : jsstring) (edit : Edit)
        (dryRun : bool) (w : World S) :
  let w' := snd (edit_file cwd userPath [edit] dryRun w) in
  store w' = store w
  /\ (calls w' = calls w
      \/ exists filePath, calls w' = calls w ++ [CallReadFile filePath]).
Proof.
  unfold edit_file. destruct (resolveAndValidatePath cwd userPath) as [filePath|e].
  - unfold try_catch, bind, fs_readFile, logCall. cbv beta zeta.
    destruct (readFile filePath (store w)) as [content|e].
    + pose proof (first_edit_not_counted content edit) as F.
      change (edit_step content (mkEditState content false []) edit)
        with (edit_loop content [edit]) in F.
      destruct (edit_loop content [edit]) as [modified changed info].
      simpl in F. subst changed. destruct dryRun; simpl; eauto.
    + destruct (hasCode e "ENOENT"); simpl; eauto.
  - simpl. auto.
Qed.

(** X11.  No handler ever throws: whatever the input and whatever the
    storage does, each one returns a result. *)
Theorem handlers_never_throw (w : World S) :
  (forall p, exists r, fst (read_file cwd p w) = Return r)
  /\ (forall ps, exists r, fst (read_multiple_files cwd ps w) = Return r)
  /\ (forall p content, exists r, fst (write_file cwd p content w) = Return r)
  /\ (forall p edits dryRun, exists r, fst (edit_file cwd p edits dryRun w) = Return r)
  /\ (forall p, exists r, fst (create_directory cwd p w) = Return r)
  /\ (forall p, exists r, fst (list_directory cwd p w) = Return r)
  /\ (forall src dst, exists r, fst (move_file cwd src dst w) = Return r)
  /\ (forall p pattern excludePatterns,
        exists r, fst (search_files cwd p pattern excludePatterns w) = Return r)
  /\ (forall p, exists r, fst (get_file_info cwd p w) = Return r)
  /\ (exists r, fst (list_allowed_directories_tool cwd w) = Return r).
Proof.
  repeat match goal with |- _ /\ _ => split end.
  - intros p. unfold read_file. run_async. repeat (break_match; simpl); eauto.
  - intros ps. unfold read_multiple_files, bind.
    rewrite allSettled_read_attempts. simpl. eauto.
  - intros p content. unfold write_file. run_async.
    repeat (break_match; simpl); eauto.
  - intros p edits dryRun. unfold edit_file. run_async.
    repeat (break_match; simpl); eauto.
  - intros p. unfold create_directory. run_async.
    repeat (break_match; simpl); eauto.
  - intros p. unfold list_directory. run_async.
    repeat (break_match; simpl); eauto.
  - intros src dst. unfold move_file, validateSourcePath. run_async.
    repeat (break_match; simpl); eauto.
  - intros p pattern excludePatterns. unfold search_files. run_async.
    repeat (break_match; simpl); eauto.
  - intros p. unfold get_file_info. run_async.
    repeat (break_match; simpl); eauto.
  - unfold list_allowed_directories_tool. run_async. eauto.
Qed.


Lemma path_reads_not_mutating (userPaths : list jsstring) :
  forallb (fun c => negb (is_mutating c)) (path_reads cwd userPaths) = true.
Proof.
  unfold path_reads. induction userPaths as [|p ps IH]; simpl; [reflexivity|].
  rewrite forallb_app, IH, andb_true_r.
  destruct (resolveAndValidatePath cwd p); reflexivity.
Qed.

(** X13.  The reading tools leave the storage as it was and make no
    call that could change it, whatever they are asked. *)
Theorem reading_tools_only_read (w : World S) :
  let reads w' :=
    exists l, w' = mkWorld (store w) (calls w ++ l)
              /\ forallb (fun c => negb (is_mutating c)) l = true in
  (forall p, reads (snd (read_file cwd p w)))
  /\ (forall ps, reads (snd (read_multiple_files cwd ps w)))
  /\ (forall p, reads (snd (list_directory cwd p w)))
  /\ (forall p pattern excludePatterns,
        reads (snd (search_files cwd p pattern excludePatterns w)))
  /\ (forall p, reads (snd (get_file_info cwd p w)))
  /\ reads (snd (list_allowed_directories_tool cwd w)).
Proof.
  destruct w as [s cs]. cbv zeta.
  repeat match goal with |- _ /\ _ => split end.
  - intros p. unfold read_file. unfold_async. cbn [store calls].
    repeat step_handler; only_reads.
  - intros ps. unfold read_multiple_files, bind.
    rewrite allSettled_read_attempts. simpl.
    eexists. split; [reflexivity|apply path_reads_not_mutating].
  - intros p. unfold list_directory. unfold_async. cbn [store calls].
    repeat step_handler; only_reads.
  - intros p pattern excludePatterns. unfold search_files. unfold_async.
    cbn [store calls]. repeat step_handler; only_reads.
  - intros p. unfold get_file_info. unfold_async. cbn [store calls].
    repeat step_handler; only_reads.
  - unfold list_allowed_directories_tool. unfold_async. only_reads.
Qed.

(** X14.  [move_file] renames only between its two validated paths, and
    only after it found the source accessible, found the destination not
    accessible, and made the destination's parent directory. *)
Theorem move_file_rename_guard (userSource userDest a b : jsstring) (w : World S) :
  In (CallRename a b) (calls (snd (move_file cwd userSource userDest w))) ->
  In (CallRename a b) (calls w)
  \/ (validateSourcePath cwd userSource = Return a
      /\ resolveAndValidatePath cwd userDest = Return b
      /\ access a (store w) = Return tt
      /\ (exists e, access b (store w) = Throw e)
      /\ fst (mkdir (path.dirname b) (store w)) = Return tt).
Proof.
  destruct w as [s cs]. cbn [store calls].
  match goal with |- _ -> ?C => set (Concl := C) end.
  unfold move_file, validateSourcePath. unfold_async. cbn [store calls].
  repeat step_handler;
    intros Hin; rewrite ?in_app_iff in Hin; simpl in Hin;
    repeat match goal with H : _ \/ _ |- _ => destruct H end;
    try contradiction; try discriminate; subst Concl; auto.
  all: match goal with
       | H : CallRename _ _ = CallRename _ _ |- _ => injection H as <- <-
       end.
  all: right; unfold validateSourcePath.
  all: repeat match goal with H : _ = _ |- _ => rewrite H end.
  all: repeat split; eauto.
Qed.

(** X15.  An existing destination stops [move_file]: it answers with the
    already-exists error after the two access checks and changes
    nothing. *)
Theorem move_file_keeps_existing_destination
        (userSource userDest sourcePath destPath : jsstring) (w : World S) :
  validateSourcePath cwd userSource = Return sourcePath ->
  resolveAndValidatePath cwd userDest = Return destPath ->
  access sourcePath (store w) = Return tt ->
  access destPath (store w) = Return tt ->
  move_file cwd userSource userDest w =
    (Return (createErrorResult
               (lit "Destination path '" ++ userDest
                ++ lit "' already exists. Cannot overwrite.")),
     mkWorld (store w) (calls w ++ [CallAccess sourcePath; CallAccess destPath])).
Proof.
  intros Vs Vd As Ad. unfold move_file. unfold_async.
  rewrite Vs, Vd. cbv beta iota. cbn [store calls]. rewrite As.
  cbv beta iota. cbn [store calls]. rewrite Ad. cbv beta iota.
  now rewrite <- app_assoc.
Qed.

(** X16.  Every file that [read_file], [read_multiple_files],
    [write_file] or [edit_file] reads or writes lies within an allowed
    directory. *)
Theorem file_calls_within_allowed (w : World S) :
  let fileTarget c q :=
    c = CallReadFile q \/ exists content, c = CallWriteFile q content in
  let contained w' :=
    forall c q, In c (calls w') -> fileTarget c q ->
                In c (calls w)
                \/ exists d, In d (ALLOWED_DIRS cwd) /\ is_within d q = true in
  (forall p, contained (snd (read_file cwd p w)))
  /\ (forall ps, contained (snd (read_multiple_files cwd ps w)))
  /\ (forall p content, contained (snd (write_file cwd p content w)))
  /\ (forall p edits dryRun, contained (snd (edit_file cwd p edits dryRun w))).
Proof.
  destruct w as [s cs]. cbv zeta.
  assert (Done : forall userPath r c q l dir,
            resolveAndValidatePath cwd userPath = Return r ->
            In c (cs ++ l) ->
            (forall c', In c' l ->
                        c' = CallMkdir dir \/ c' = CallReadFile r
                        \/ exists content, c' = CallWriteFile r content) ->
            c = CallReadFile q \/ (exists content, c = CallWriteFile q content) ->
            In c cs \/ exists d, In d (ALLOWED_DIRS cwd) /\ is_within d q = true).
  { intros userPath r c q l dir V Hin Hl Hc.
    apply in_app_iff in Hin as [Hin|Hin]; [now left|right].
    assert (q = r) as ->.
    { destruct (Hl c Hin) as [E|[E|[content E]]];
        destruct Hc as [Hc|[content' Hc]]; congruence. }
    eapply validate_returns_within; eassumption. }
  repeat match goal with |- _ /\ _ => split end.
  - intros p. unfold read_file. unfold_async. cbn [store calls].
    repeat step_handler; intros c q Hin Hc; auto;
      (eapply (Done p _ c q [_] []); eauto;
       intros c' [<-|[]]; auto).
  - intros ps. unfold read_multiple_files, bind.
    rewrite allSettled_read_attempts. cbn [snd calls ret].
    intros c q Hin Hc. apply in_app_iff in Hin as [Hin|Hin]; [now left|right].
    unfold path_reads in Hin. apply in_flat_map in Hin as [p [_ Hp]].
    destruct (resolveAndValidatePath cwd p) as [r|e] eqn:V; [|contradiction].
    destruct Hp as [<-|[]].
    assert (q = r) as -> by (destruct Hc as [Hc|[content Hc]]; congruence).
    eapply validate_returns_within; eassumption.
  - intros p content. unfold write_file. unfold_async. cbn [store calls].
    repeat step_handler; intros c q Hin Hc; auto;
      rewrite <- ?app_assoc in Hin;
      (eapply (Done p _ c q _ (path.dirname _)); [eassumption|exact Hin| |exact Hc];
       simpl; intros c' Hc'; repeat destruct Hc' as [<-|Hc']; try contradiction; eauto).
  - intros p edits dryRun. unfold edit_file.
    destruct (resolveAndValidatePath cwd p) as [r|e] eqn:V;
      [|intros c q Hin Hc; now left].
    unfold_async. cbn [store calls]. destruct dryRun;
    repeat step_handler; intros c q Hin Hc; auto;
      rewrite <- ?app_assoc in Hin;
      (eapply (Done p _ c q _ []); [eassumption|exact Hin| |exact Hc];
       simpl; intros c' Hc'; repeat destruct Hc' as [<-|Hc']; try contradiction; eauto).
Qed.

(** X17.  On a storage where a write that succeeded is read back, a
    [write_file] that reports success is followed by a [read_file] of the
    same path that returns exactly the content written. *)
Theorem write_then_read (userPath content : jsstring) (w : World S) (r : ToolResult) :
  (forall p c s s', writeFile p c s = (Return tt, s') -> readFile p s' = Return c) ->
  fst (write_file cwd userPath content w) = Return r ->
  isError r = false ->
  fst (read_file cwd userPath (snd (write_file cwd userPath content w)))
  = Return (okResult content).
Proof.
  intros Law. unfold write_file, read_file. unfold_async.
  destruct (resolveAndValidatePath cwd userPath) as [filePath|e];
    cbv beta iota; cbn [fst snd store calls]; [|intros [= <-]; discriminate].
  destruct (mkdir (path.dirname filePath) (store w)) as [[[]|e] s1];
    cbv beta iota; cbn [fst snd store calls]; [|intros [= <-]; discriminate].
  destruct (writeFile filePath content s1) as [[[]|e] s2] eqn:Wr;
    cbv beta iota; cbn [fst snd store calls]; [|intros [= <-]; discriminate].
  intros _ _. now rewrite (Law _ _ _ _ Wr).
Qed.

(** X18.  The loop of [initializeAllowedDirs] never throws: it calls
    [mkdir] once for each directory, in order, and goes on when a call
    fails. *)
Theorem ensureDirs_never_throws (dirs : list jsstring) (w : World S) :
  fst (ensureDirs dirs w) = Return tt
  /\ calls (snd (ensureDirs dirs w)) = calls w ++ map CallMkdir dirs.
Proof.
  revert w. induction dirs as [|dir dirs IH]; intros w.
  - simpl. now rewrite app_nil_r.
  - assert (Step : ensureDirs (dir :: dirs) w =
                   ensureDirs dirs (mkWorld (snd (mkdir dir (store w)))
                                            (calls w ++ [CallMkdir dir]))).
    { cbn [ensureDirs]. unfold bind, try_catch, fs_mkdir, ret, logCall.
      destruct (mkdir dir (store w)) as [[[]|e] s1]; reflexivity. }
    rewrite Step. destruct (IH (mkWorld (snd (mkdir dir (store w)))
                                        (calls w ++ [CallMkdir dir]))) as [R C].
    rewrite R, C. cbn [calls map]. now rewrite <- app_assoc.
Qed.

(** X19.  [search_files] runs the glob only in the validated directory
    of the request, with the pattern and the exclusions of the request,
    and only after [stat] reported that path to be a directory. *)
Theorem search_files_glob_guard (userPath pattern : jsstring)
        (excludePatterns : list jsstring) (pat dir : jsstring) (ign : list jsstring)
        (w : World S) :
  In (CallGlob pat dir ign)
     (calls (snd (search_files cwd userPath pattern excludePatterns w))) ->
  In (CallGlob pat dir ign) (calls w)
  \/ (pat = pattern /\ ign = excludePatterns
      /\ resolveAndValidatePath cwd userPath = Return dir
      /\ exists stats, stat dir (store w) = Return stats
                       /\ statsIsDirectory stats = true).
Proof.
  destruct w as [s cs]. cbn [store calls].
  match goal with |- _ -> ?C => set (Concl := C) end.
  unfold search_files. unfold_async. cbn [store calls].
  repeat step_handler;
    intros Hin; rewrite ?in_app_iff in Hin; simpl in Hin;
    repeat match goal with H : _ \/ _ |- _ => destruct H end;
    try contradiction; try discriminate; subst Concl; auto.
  all: match goal with
       | H : CallGlob _ _ _ = CallGlob _ _ _ |- _ => injection H as <- <- <-
       end.
  all: right; repeat split; eauto.
Qed.

End HandlerFacts.

(** ** The handlers on the in-memory storage *)

Lemma MemFs_write_read (p c : jsstring) (s s' : MemFs.t) :
  writeFile p c s = (Return tt, s') -> readFile p s' = Return c.
Proof.
  simpl. destruct (MemFs.lookup p s) as [[content|]|]; try discriminate;
    intros [= <-]; simpl; now rewrite eqb_refl.
Qed.

Lemma edit_file_dry_run_agrees_witness :
  let cwd := lit "/home/project" in
  let file := lit "/home/project/data/notes.txt" in
  let w := MemFs.start [(file, MemFs.FileNode (lit "foo bar"))] in
  let edits := [mkEdit (lit "foo") (lit "baz"); mkEdit (lit "bar") (lit "qux")] in
  let st := edit_loop (lit "foo bar") edits in
  resolveAndValidatePath cwd (lit "data/notes.txt") = Return file
  /\ readFile file (store w) = Return (lit "foo bar")
  /\ changesMade st = true
  /\ edit_file cwd (lit "data/notes.txt") edits true w =
       (Return (okResult (dryRunChangeText (lit "data/notes.txt") st)),
        mkWorld (store w) (calls w ++ [CallReadFile file]))
  /\ calls (snd (edit_file cwd (lit "data/notes.txt") edits false w)) =
       calls w ++ [CallReadFile file; CallWriteFile file (lit "baz qux")].
Proof.
  intros cwd file w edits st.
  assert (V : resolveAndValidatePath cwd (lit "data/notes.txt") = Return file)
    by (vm_compute; reflexivity).
  assert (R : readFile file (store w) = Return (lit "foo bar"))
    by (vm_compute; reflexivity).
  split; [exact V|]. split; [exact R|]. split; [vm_compute; reflexivity|].
  exact (edit_file_dry_run_agrees cwd (lit "data/notes.txt") file (lit "foo bar")
                                  edits w V R).
Defined.


Lemma move_file_rename_guard_witness :
  let cwd := lit "/home/project" in
  let a := lit "/home/project/data/a" in
  let b := lit "/home/project/data/b" in
  let w := MemFs.start [(a, MemFs.FileNode (lit "x"))] in
  In (CallRename a b) (calls (snd (move_file cwd (lit "data/a") (lit "data/b") w)))
  /\ (In (CallRename a b) (calls w)
      \/ (validateSourcePath cwd (lit "data/a") = Return a
          /\ resolveAndValidatePath cwd (lit "data/b") = Return b
          /\ access a (store w) = Return tt
          /\ (exists e, access b (store w) = Throw e)
          /\ fst (mkdir (path.dirname b) (store w)) = Return tt)).
Proof.
  intros cwd a b w.
  assert (Hin : In (CallRename a b)
                   (calls (snd (move_file cwd (lit "data/a") (lit "data/b") w))))
    by (vm_compute; do 3 right; left; reflexivity).
  split; [exact Hin|].
  exact (move_file_rename_guard cwd (lit "data/a") (lit "data/b") a b w Hin).
Defined.

Lemma move_file_keeps_existing_destination_witness :
  let cwd := lit "/home/project" in
  let a := lit "/home/project/data/a" in
  let b := lit "/home/project/data/b" in
  let fs := [(a, MemFs.FileNode (lit "x")); (b, MemFs.FileNode (lit "y"))] in
  let w := MemFs.start fs in
  validateSourcePath cwd (lit "data/a") = Return a
  /\ resolveAndValidatePath cwd (lit "data/b") = Return b
  /\ access a (store w) = Return tt
  /\ access b (store w) = Return tt
  /\ snd (move_file cwd (lit "data/a") (lit "data/b") w)
     = mkWorld fs [CallAccess a; CallAccess b].
Proof.
  intros cwd a b fs w.
  assert (Vs : validateSourcePath cwd (lit "data/a") = Return a)
    by (vm_compute; reflexivity).
  assert (Vd : resolveAndValidatePath cwd (lit "data/b") = Return b)
    by (vm_compute; reflexivity).
  assert (As : access a (store w) = Return tt) by (vm_compute; reflexivity).
  assert (Ad : access b (store w) = Return tt) by (vm_compute; reflexivity).
  repeat (split; [assumption|]).
  exact (f_equal snd
           (move_file_keeps_existing_destination cwd (lit "data/a") (lit "data/b")
                                                 a b w Vs Vd As Ad)).
Defined.

Lemma write_then_read_witness :
  let cwd := lit "/home/project" in
  let w := MemFs.start [] in
  let r := okResult (lit "Successfully wrote content to 'data/n.txt'.") in
  (forall p c s s', writeFile p c s = (Return tt, s') -> readFile p s' = Return c)
  /\ fst (write_file cwd (lit "data/n.txt") (lit "hello") w) = Return r
  /\ isError r = false
  /\ fst (read_file cwd (lit "data/n.txt")
                    (snd (write_file cwd (lit "data/n.txt") (lit "hello") w)))
     = Return (okResult (lit "hello")).
Proof.
  intros cwd w r.
  assert (Wr : fst (write_file cwd (lit "data/n.txt") (lit "hello") w) = Return r)
    by (vm_compute; reflexivity).
  split; [exact MemFs_write_read|]. split; [exact Wr|]. split; [reflexivity|].
  exact (write_then_read cwd (lit "data/n.txt") (lit "hello") w r
                         MemFs_write_read Wr eq_refl).
Defined.

Lemma search_files_glob_guard_witness :
  let cwd := lit "/home/project" in
  let dir := lit "/home/project/data" in
  let w := MemFs.start [(dir, MemFs.DirNode)] in
  In (CallGlob (lit "*.txt") dir [])
     (calls (snd (search_files cwd (lit "data") (lit "*.txt") [] w)))
  /\ (In (CallGlob (lit "*.txt") dir []) (calls w)
      \/ (lit "*.txt" = lit "*.txt" /\ @nil jsstring = []
          /\ resolveAndValidatePath cwd (lit "data") = Return dir
          /\ exists stats, stat dir (store w) = Return stats
                           /\ statsIsDirectory stats = true)).
Proof.
  intros cwd dir w.
  assert (Hin : In (CallGlob (lit "*.txt") dir [])
                   (calls (snd (search_files cwd (lit "data") (lit "*.txt") [] w))))
    by (vm_compute; right; left; reflexivity).
  split; [exact Hin|].
  exact (search_files_glob_guard cwd (lit "data") (lit "*.txt") []
                                 (lit "*.txt") dir [] w Hin).
Defined.

(** ** Where [create_directory] can make a directory *)

Lemma split_slash_app_gen (a b : jsstring) :
  path.split_slash (a ++ SLASH :: b) = path.split_slash a ++ path.split_slash b.
Proof.
  induction a as [|c a IH]; simpl.
  - reflexivity.
  - destruct (N.eqb c SLASH); [now rewrite IH|].
    rewrite IH. destruct (path.split_slash a) as [|seg segs] eqn:E.
    + now apply split_slash_nonempty in E.
    + reflexivity.
Qed.

Lemma stack_after_app (acc : list jsstring) (a b : jsstring) :
  stack_after acc (a ++ SLASH :: b) = stack_after (stack_after acc a) b.
Proof. unfold stack_after. now rewrite split_slash_app_gen, fold_left_app. Qed.

Lemma stack_after_slashes (acc : list jsstring) (t : jsstring) :
  forallb isSlash t = true -> stack_after acc t = acc.
Proof.
  induction t as [|c t IH]; intros A; [reflexivity|].
  simpl in A. apply andb_true_iff in A as [Ac At].
  unfold isSlash in Ac. apply N.eqb_eq in Ac. subst c.
  change (SLASH :: t) with ([] ++ SLASH :: t). rewrite stack_after_app.
  now apply IH.
Qed.

Lemma stack_after_last (acc : list jsstring) (last tail : jsstring) :
  slashfree last = true -> forallb isSlash tail = true ->
  stack_after acc (last ++ tail) = path.normalize_step false acc last.
Proof.
  intros Fl At.
  assert (One : stack_after acc last = path.normalize_step false acc last).
  { unfold stack_after. now rewrite split_slash_single. }
  destruct tail as [|c t].
  - now rewrite app_nil_r.
  - simpl in At. apply andb_true_iff in At as [Ac At].
    unfold isSlash in Ac. apply N.eqb_eq in Ac. subst c.
    rewrite stack_after_app, One. now apply stack_after_slashes.
Qed.

Lemma stack_after_kept (acc : list jsstring) (s : jsstring) :
  Forall (fun seg => kept seg = true) acc ->
  Forall (fun seg => kept seg = true) (stack_after acc s).
Proof.
  intros K. unfold stack_after. apply fold_normalize_kept; [|assumption].
  apply split_slash_slashfree.
Qed.

(** The resolution of a non-empty path against the project root, read
    off the stack: started empty for an absolute path, from the segments
    of the root otherwise. *)
Lemma resolve_as_stack (cwd x : jsstring) :
  x <> [] ->
  path.resolve cwd [projectRoot; x] =
    absolute_of (rev (stack_after (if path.isAbsolute x then []
                                   else [lit "project"; lit "home"]) x)).
Proof.
  intros NE. destruct x as [|c x']; [congruence|].
  unfold path.resolve.
  change (rev [projectRoot; c :: x']) with [c :: x'; projectRoot].
  change (path.isAbsolute (c :: x')) with (N.eqb c SLASH).
  destruct (N.eqb c SLASH) eqn:A.
  - assert (L : path.resolve_loop cwd [c :: x'; projectRoot] []
                = ((c :: x') ++ SLASH :: [], true))
      by (cbn [path.resolve_loop path.isAbsolute]; now rewrite A).
    rewrite L. unfold path.normalizeString, path.normalize_segments, absolute_of.
    simpl negb. do 3 f_equal. fold (stack_after [] ((c :: x') ++ SLASH :: [])).
    now rewrite stack_after_app.
  - assert (L : path.resolve_loop cwd [c :: x'; projectRoot] []
                = (projectRoot ++ SLASH :: ((c :: x') ++ SLASH :: []), true))
      by (cbn [path.resolve_loop path.isAbsolute]; now rewrite A).
    rewrite L. unfold path.normalizeString, path.normalize_segments, absolute_of.
    simpl negb. do 3 f_equal.
    fold (stack_after [] (projectRoot ++ SLASH :: ((c :: x') ++ SLASH :: []))).
    rewrite !stack_after_app. reflexivity.
Qed.

Lemma dropWhile_split (f : N -> bool) (s : jsstring) :
  exists pre, s = pre ++ path.dropWhile f s
              /\ forallb f pre = true
              /\ match path.dropWhile f s with
                 | [] => True
                 | x :: _ => f x = false
                 end.
Proof.
  induction s as [|c s [pre [E [A Hd]]]]; simpl.
  - exists []. auto.
  - destruct (f c) eqn:Fc.
    + exists (c :: pre). simpl. rewrite Fc, A. repeat split; [now f_equal|assumption].
    + exists []. simpl. auto.
Qed.

(** What [path.dirname] cuts off: unless the parent the fallback checks is
    the project root, [/] or [//], the path is its dirname, a separator,
    one last segment, and trailing separators. *)
Lemma dirname_split (p : jsstring) :
  parentPath p = lit "/home/project"
  \/ parentPath p = [SLASH]
  \/ parentPath p = [SLASH; SLASH]
  \/ exists last tail,
       p = parentPath p ++ SLASH :: last ++ tail
       /\ slashfree last = true /\ last <> []
       /\ forallb isSlash tail = true
       /\ path.isAbsolute (parentPath p) = path.isAbsolute p
       /\ parentPath p <> [].
Proof.
  unfold parentPath. destruct p as [|c0 rest]; [left; reflexivity|].
  unfold path.dirname.
  destruct (dropWhile_split (fun c => N.eqb c SLASH) (rev rest)) as [tl [E1 [A1 H1]]].
  set (r1 := path.dropWhile (fun c => N.eqb c SLASH) (rev rest)) in *.
  destruct (dropWhile_split (fun c => negb (N.eqb c SLASH)) r1) as [lr [E2 [A2 H2]]].
  set (scanned := path.dropWhile (fun c => negb (N.eqb c SLASH)) r1) in *.
  destruct scanned as [|x before] eqn:Sc.
  - destruct (N.eqb c0 SLASH); [right; left; reflexivity|left; reflexivity].
  - destruct (N.eqb c0 SLASH && Nat.eqb (length (x :: before)) 1);
      [right; right; left; reflexivity|].
    destruct (eqb (c0 :: rev before) (lit ".")); [left; reflexivity|].
    right; right; right.
    apply negb_false_iff in H2. apply N.eqb_eq in H2. subst x.
    exists (rev lr), (rev tl). repeat split.
    + f_equal. rewrite <- (rev_involutive rest), E1, E2.
      rewrite !rev_app_distr. simpl. now rewrite <- !app_assoc.
    + unfold slashfree. now rewrite forallb_rev'.
    + intros Hn. apply (f_equal (@rev N)) in Hn. rewrite rev_involutive in Hn.
      simpl in Hn. subst lr. simpl in E2. rewrite E2 in H1.
      rewrite N.eqb_refl in H1. discriminate.
    + unfold isSlash. rewrite forallb_rev'. exact A1.
    + discriminate.
Qed.

Lemma prefixb_snoc_other (F L : list jsstring) (x : jsstring) :
  ~ In x F -> prefixb F (L ++ [x]) = true -> prefixb F L = true.
Proof.
  revert L. induction F as [|f F IH]; intros L NI P; [reflexivity|].
  destruct L as [|l L]; simpl in *.
  - apply andb_true_iff in P as [P _]. apply eqb_eq in P. subst. tauto.
  - apply andb_true_iff in P as [P1 P2]. rewrite P1. simpl.
    apply IH; [tauto|assumption].
Qed.

Section CreateDirectory.

Context {S : Type} `{FileSystem S}.

Variable cwd : jsstring.

(** When the parent check of the fallback passes, the path itself
    resolves within the allowed directory or to the project root. *)
Lemma fallback_target (userPath r : jsstring) :
  resolveAndValidatePath cwd (parentPath userPath ++ lit "/dummy") = Return r ->
  is_within (lit "/home/project/data")
            (path.resolve cwd [lit "/home/project"; userPath]) = true
  \/ path.resolve cwd [lit "/home/project"; userPath] = lit "/home/project".
Proof.
  intros V.
  destruct (dirname_split userPath)
    as [E|[E|[E|[last [tail [Ep [Fl [Nl [At [Ab Nd]]]]]]]]]];
    try (rewrite E in V; vm_compute in V; discriminate).
  set (d := parentPath userPath) in *.
  set (F := [lit "home"; lit "project"; lit "data"]).
  assert (KF : Forall (fun s => kept s = true) F) by (repeat constructor).
  set (base := if path.isAbsolute userPath then [] else [lit "project"; lit "home"]).
  assert (Kbase : Forall (fun s => kept s = true) base)
    by (subst base; destruct (path.isAbsolute userPath); repeat constructor).
  set (Sd := stack_after base d).
  assert (KSd : Forall (fun s => kept s = true) Sd) by now apply stack_after_kept.
  (* the parent check *)
  assert (Pd : prefixb F (rev Sd) = true).
  { unfold resolveAndValidatePath in V.
    destruct (eqb (trim (d ++ lit "/dummy")) []); [discriminate|].
    destruct (existsb _ _) eqn:Ex; simpl in V; [|discriminate].
    rewrite resolve_as_stack in Ex by (destruct d; [congruence|discriminate]).
    assert (Ad : path.isAbsolute (d ++ lit "/dummy") = path.isAbsolute userPath).
    { rewrite <- Ab. destruct d; [congruence|reflexivity]. }
    rewrite Ad in Ex. fold base in Ex.
    change (d ++ lit "/dummy") with (d ++ SLASH :: lit "dummy") in Ex.
    rewrite stack_after_app in Ex. fold Sd in Ex.
    change (stack_after Sd (lit "dummy")) with (lit "dummy" :: Sd) in Ex.
    change (ALLOWED_DIRS cwd) with [absolute_of F] in Ex.
    cbn [existsb] in Ex. rewrite orb_false_r in Ex.
    rewrite isInside_spec in Ex;
      [|assumption|apply Forall_rev; constructor; [reflexivity|assumption]].
    apply andb_true_iff in Ex as [P _]. cbn [rev] in P.
    apply (prefixb_snoc_other F (rev Sd) (lit "dummy")); [|assumption].
    simpl. intros [D|[D|[D|[]]]]; discriminate. }
  apply prefixb_app in Pd as [rest' EL].
  (* the path itself *)
  assert (NE : userPath <> []) by (rewrite Ep; destruct d; [congruence|discriminate]).
  assert (ER : path.resolve cwd [lit "/home/project"; userPath]
               = absolute_of (rev (path.normalize_step false Sd last))).
  { change (lit "/home/project") with projectRoot.
    rewrite (resolve_as_stack cwd userPath NE). fold base. do 2 f_equal.
    rewrite Ep at 1. rewrite stack_after_app. fold Sd.
    now apply stack_after_last. }
  rewrite ER. clear ER.
  assert (KT : Forall (fun s => kept s = true)
                      (rev (path.normalize_step false Sd last))).
  { apply Forall_rev. now apply normalize_step_kept. }
  change (lit "/home/project/data") with (absolute_of F).
  rewrite is_within_absolute_of by assumption.
  assert (ESd : Sd = rev rest' ++ rev F).
  { rewrite <- (rev_involutive Sd), EL. apply rev_app_distr. }
  unfold path.normalize_step.
  assert (N0 : eqb last [] = false) by now apply eqb_neq.
  rewrite N0. cbn [orb].
  destruct (eqb last [DOT]).
  - left. rewrite EL. apply prefixb_app. now exists rest'.
  - destruct (eqb last [DOT; DOT]).
    + rewrite ESd. destruct (rev rest') as [|y rr] eqn:Er.
      * right. reflexivity.
      * left. cbn [app].
        assert (Ky : kept y = true).
        { rewrite ESd in KSd. cbn [app] in KSd. now inversion KSd. }
        assert (Ny : eqb y [DOT; DOT] = false).
        { unfold kept in Ky. repeat (apply andb_true_iff in Ky as [Ky ?]).
          now apply negb_true_iff. }
        rewrite Ny, rev_app_distr, rev_involutive.
        apply prefixb_app. eexists. reflexivity.
    + left. cbn [rev]. rewrite EL, <- app_assoc. apply prefixb_app. eauto.
Qed.

(** X20.  Whatever path it is given, [create_directory] calls [mkdir]
    only on a path within an allowed directory, or on the project root
    itself. *)
Theorem create_directory_targets (userPath q : jsstring) (w : World S) :
  In (CallMkdir q) (calls (snd (create_directory cwd userPath w))) ->
  In (CallMkdir q) (calls w)
  \/ (exists d, In d (ALLOWED_DIRS cwd) /\ is_within d q = true)
  \/ q = lit "/home/project".
Proof.
  intros Hin. apply create_directory_mkdir in Hin as [Hin|[V|[_ [[r P] ->]]]].
  - now left.
  - right; left. eapply validate_returns_within. eassumption.
  - right. destruct (fallback_target userPath r P) as [W|E].
    + left. exists (lit "/home/project/data"). split; [now left|assumption].
    + now right.
Qed.

End CreateDirectory.

Lemma create_directory_targets_witness :
  let cwd := lit "/home/project" in
  let w := MemFs.start [] in
  In (CallMkdir (lit "/home/project"))
     (calls (snd (create_directory cwd (lit "data/a/../..") w)))
  /\ (In (CallMkdir (lit "/home/project")) (calls w)
      \/ (exists d, In d (ALLOWED_DIRS cwd)
                    /\ is_within d (lit "/home/project") = true)
      \/ lit "/home/project" = lit "/home/project").
Proof.
  intros cwd w.
  assert (Hin : In (CallMkdir (lit "/home/project"))
                   (calls (snd (create_directory cwd (lit "data/a/../..") w))))
    by (vm_compute; left; reflexivity).
  split; [exact Hin|].
  exact (create_directory_targets cwd (lit "data/a/../..") (lit "/home/project") w Hin).
Defined.

(** ** The allowed-directories listing *)

Lemma indexOf_prefix (s p : jsstring) : startsWith s p = true -> indexOf s p = Some 0.
Proof. intros P. destruct s; simpl; now rewrite P. Qed.

(** Replacing a leading part by nothing leaves what follows it. *)
Lemma String_replace_prefix (pre rest : jsstring) :
  String_replace (pre ++ rest) pre [] = rest.
Proof.
  unfold String_replace. rewrite indexOf_prefix by apply startsWith_app.
  simpl. rewrite skipn_app, skipn_all, Nat.sub_diag. reflexivity.
Qed.

(** X21.  The listing shows every directory under the project root
    relative to it; the tool and the resource give the same text, which
    names the one allowed directory as "data" whatever the working
    directory, and the tool touches no storage. *)
Theorem allowed_dirs_listed_relative :
  (forall names,
     allowedDirsListing (map (fun n => lit "/home/project/" ++ n) names) =
       lit "Allowed base directories for file operations:" ++ NL
       ++ JS.join NL (map (fun n => lit "- " ++ n) names))
  /\ (forall cwd href,
        resources.text (resources.list_allowed_directories cwd href) =
          lit "Allowed base directories for file operations:" ++ NL ++ lit "- data")
  /\ (forall (S : Type) (FS : FileSystem S) cwd (w : World S),
        list_allowed_directories_tool cwd w =
          (Return (okResult (lit "Allowed base directories for file operations:"
                             ++ NL ++ lit "- data")), w)).
Proof.
  assert (G : forall names,
     allowedDirsListing (map (fun n => lit "/home/project/" ++ n) names) =
       lit "Allowed base directories for file operations:" ++ NL
       ++ JS.join NL (map (fun n => lit "- " ++ n) names)).
  { intros names. unfold allowedDirsListing. do 3 f_equal.
    rewrite map_map. apply map_ext. intros n. now rewrite String_replace_prefix. }
  split; [exact G|]. split.
  - intros cwd href. cbn [resources.text resources.list_allowed_directories].
    change (ALLOWED_DIRS cwd)
      with (map (fun n => lit "/home/project/" ++ n) [lit "data"]).
    now rewrite G.
  - intros S FS cwd w. unfold list_allowed_directories_tool, try_catch, ret.
    change (ALLOWED_DIRS cwd)
      with (map (fun n => lit "/home/project/" ++ n) [lit "data"]).
    now rewrite G.
Qed.

(** ** Parent directories made by [write_file] and [move_file] *)

Lemma dropWhile_all (f : N -> bool) (a b : jsstring) :
  forallb f a = true -> path.dropWhile f (a ++ b) = path.dropWhile f b.
Proof.
  induction a as [|c a IH]; intros A; [reflexivity|].
  simpl in *. apply andb_true_iff in A as [Ac Aa]. rewrite Ac. now apply IH.
Qed.

Lemma join_snoc (sep : jsstring) (segs : list jsstring) (seg : jsstring) :
  segs <> [] -> JS.join sep (segs ++ [seg]) = JS.join sep segs ++ sep ++ seg.
Proof.
  induction segs as [|s segs IH]; intros NE; [congruence|].
  destruct segs as [|s' segs'].
  - reflexivity.
  - change (JS.join sep ((s :: s' :: segs') ++ [seg]))
      with (s ++ sep ++ JS.join sep ((s' :: segs') ++ [seg])).
    rewrite IH by discriminate.
    change (JS.join sep (s :: s' :: segs'))
      with (s ++ sep ++ JS.join sep (s' :: segs')).
    now rewrite <- !app_assoc.
Qed.

Lemma join_kept_nonempty (segs : list jsstring) :
  segs <> [] -> Forall (fun s => kept s = true) segs -> JS.join [SLASH] segs <> [].
Proof.
  intros NE K. destruct segs as [|s segs]; [congruence|].
  inversion K as [|? ? Ks _]; subst. apply kept_nonempty in Ks.
  apply eqb_neq in Ks. destruct s as [|c s]; [congruence|].
  destruct segs; discriminate.
Qed.

(** [path.dirname] of a resolved path drops its last segment. *)
Lemma dirname_absolute_of (segs : list jsstring) (seg : jsstring) :
  Forall (fun s => kept s = true) (segs ++ [seg]) ->
  path.dirname (absolute_of (segs ++ [seg])) = absolute_of segs.
Proof.
  intros K. apply Forall_app in K as [Ks Kseg].
  inversion Kseg as [|? ? Kg _]; subst.
  pose proof (kept_slashfree _ Kg) as Fg.
  pose proof (kept_nonempty _ Kg) as Ng. apply eqb_neq in Ng.
  assert (Frev : forallb (fun c => negb (N.eqb c SLASH)) (rev seg) = true)
    by (rewrite forallb_rev'; exact Fg).
  assert (Hrev : exists c tl, rev seg = c :: tl /\ N.eqb c SLASH = false).
  { destruct (rev seg) as [|c tl] eqn:E.
    - apply (f_equal (@rev N)) in E. rewrite rev_involutive in E. now subst.
    - exists c, tl. split; [reflexivity|].
      simpl in Frev. apply andb_true_iff in Frev as [Fc _].
      now apply negb_true_iff. }
  destruct Hrev as [c [tl [Er Ec]]].
  assert (Stop : forall X, path.dropWhile (fun c => N.eqb c SLASH) (rev seg ++ X)
                           = rev seg ++ X).
  { intros X. rewrite Er. cbn [app path.dropWhile]. now rewrite Ec. }
  unfold absolute_of, path.dirname. rewrite N.eqb_refl.
  destruct segs as [|s segs'].
  - cbn [app JS.join]. rewrite <- (app_nil_r (rev seg)), Stop.
    rewrite dropWhile_all by assumption. reflexivity.
  - rewrite join_snoc by discriminate.
    assert (R : rev (JS.join [SLASH] (s :: segs') ++ [SLASH] ++ seg)
                = rev seg ++ SLASH :: rev (JS.join [SLASH] (s :: segs'))).
    { rewrite !rev_app_distr. cbn [rev app]. now rewrite <- app_assoc. }
    rewrite R, Stop. rewrite dropWhile_all by assumption.
    cbn [path.dropWhile]. rewrite N.eqb_refl. cbn [negb].
    assert (NJ : JS.join [SLASH] (s :: segs') <> [])
      by (apply join_kept_nonempty; [discriminate|assumption]).
    assert (L : Nat.eqb (length (SLASH :: rev (JS.join [SLASH] (s :: segs')))) 1 = false).
    { apply Nat.eqb_neq. cbn [length]. rewrite length_rev.
      destruct (JS.join [SLASH] (s :: segs')); [congruence|simpl; lia]. }
    rewrite L. cbn [andb]. now rewrite rev_involutive.
Qed.

Section ParentDirectories.

Context {S : Type} `{FileSystem S}.

Variable cwd : jsstring.

(** The parent of a validated path lies within the allowed directory, or
    is the project root (when the path is the allowed directory). *)
Lemma dirname_of_validated (userPath r : jsstring) :
  resolveAndValidatePath cwd userPath = Return r ->
  is_within (lit "/home/project/data") (path.dirname r) = true
  \/ path.dirname r = lit "/home/project".
Proof.
  intros V.
  set (F := [lit "home"; lit "project"; lit "data"]).
  assert (KF : Forall (fun s => kept s = true) F) by (repeat constructor).
  unfold resolveAndValidatePath in V.
  destruct (eqb (trim userPath) []); [discriminate|].
  destruct (existsb _ _) eqn:Ex; simpl in V; [|discriminate].
  injection V as <-.
  destruct (resolve_against_root cwd userPath) as [T [KT E]]. rewrite E in *.
  change (ALLOWED_DIRS cwd) with [absolute_of F] in Ex.
  cbn [existsb] in Ex. rewrite orb_false_r in Ex.
  apply isInside_sound in Ex; try assumption.
  apply prefixb_app in Ex as [rest ->].
  destruct (rev rest) as [|t rr] eqn:Er.
  - right. apply (f_equal (@rev jsstring)) in Er. rewrite rev_involutive in Er.
    subst rest. reflexivity.
  - left. apply (f_equal (@rev jsstring)) in Er. rewrite rev_involutive in Er.
    simpl in Er. subst rest. rewrite app_assoc in *.
    rewrite dirname_absolute_of by assumption.
    change (lit "/home/project/data") with (absolute_of F).
    rewrite is_within_absolute_of;
      [|assumption|now apply Forall_app in KT as [KT _]].
    apply prefixb_app. eexists. reflexivity.
Qed.

(** X22.  [write_file] and [move_file] make a directory only within the
    allowed directory or at the project root itself; [edit_file] makes
    none: no call it adds to the log is a [mkdir]. *)
Theorem parent_directories_contained (w : World S) :
  let contained w' :=
    forall q, In (CallMkdir q) (calls w') ->
              In (CallMkdir q) (calls w)
              \/ is_within (lit "/home/project/data") q = true
              \/ q = lit "/home/project" in
  (forall p content, contained (snd (write_file cwd p content w)))
  /\ (forall src dst, contained (snd (move_file cwd src dst w)))
  /\ (forall p edits dryRun, contained (snd (edit_file cwd p edits dryRun w)))
  /\ (forall p edits dryRun,
        exists added,
          calls (snd (edit_file cwd p edits dryRun w)) = calls w ++ added
          /\ forall q, ~ In (CallMkdir q) added).
Proof.
  destruct w as [s cs]. cbv zeta.
  repeat match goal with |- _ /\ _ => split end.
  - intros p content q. unfold write_file. unfold_async. cbn [store calls].
    repeat step_handler;
      intros Hin; rewrite ?in_app_iff in Hin; simpl in Hin;
      repeat match goal with H : _ \/ _ |- _ => destruct H end;
      try contradiction; try discriminate; auto.
    all: match goal with
         | H : CallMkdir _ = CallMkdir _ |- _ => injection H as <-
         end.
    all: right; eapply dirname_of_validated; eassumption.
  - intros src dst q. unfold move_file, validateSourcePath. unfold_async.
    cbn [store calls].
    repeat step_handler;
      intros Hin; rewrite ?in_app_iff in Hin; simpl in Hin;
      repeat match goal with H : _ \/ _ |- _ => destruct H end;
      try contradiction; try discriminate; auto.
    all: match goal with
         | H : CallMkdir _ = CallMkdir _ |- _ => injection H as <-
         end.
    all: right; eapply dirname_of_validated; eassumption.
  - intros p edits dryRun q. unfold edit_file.
    destruct (resolveAndValidatePath cwd p) as [r|e]; [|now left].
    unfold_async. cbn [store calls]. destruct dryRun;
    repeat step_handler;
      intros Hin; rewrite ?in_app_iff in Hin; simpl in Hin;
      repeat match goal with H : _ \/ _ |- _ => destruct H end;
      try contradiction; try discriminate; auto.
  - intros p edits dryRun. unfold edit_file.
    destruct (resolveAndValidatePath cwd p) as [r|e];
      [|exists []; split; [now rewrite app_nil_r|intros q []]].
    unfold_async. cbn [store calls]. destruct dryRun;
    repeat step_handler;
      (eexists; split; [rewrite <- ?app_assoc; cbn [app]; reflexivity|]);
      intros q Hin; simpl in Hin;
      repeat match goal with H : _ \/ _ |- _ => destruct H end;
      try contradiction; discriminate.
Qed.

End ParentDirectories.

(** ** Sample runs of the further properties *)

Lemma validate_invalid_iff_blank_witness :
  (blank [9; 32; 160]%N = true
   /\ resolveAndValidatePath (lit "/srv") [9; 32; 160]%N = Throw invalidPathError)
  /\ (let p := lit "data/../../etc" in
      let e := mkError (lit "Access denied: Path 'data/../../etc' is outside the allowed directories.") None in
      resolveAndValidatePath (lit "/srv") p = Throw e
      /\ blank p = false
      /\ e = accessDeniedError p).
Proof.
  split.
  - split; [reflexivity|].
    exact (proj2 (proj1 (validate_invalid_iff_blank (lit "/srv") [9; 32; 160]%N))
                 eq_refl).
  - intros p e.
    assert (V : resolveAndValidatePath (lit "/srv") p = Throw e)
      by (vm_compute; reflexivity).
    assert (B : blank p = false) by reflexivity.
    split; [exact V|]. split; [exact B|].
    exact (proj1 (proj2 (validate_invalid_iff_blank (lit "/srv") p)) e V B).
Defined.

Lemma validate_accepts_iff_witness :
  let cwd := lit "/srv" in
  let r := lit "/home/project/data/.hidden/x" in
  resolveAndValidatePath cwd (lit "data/.hidden/./x") = Return r
  /\ blank (lit "data/.hidden/./x") = false
  /\ r = path.resolve cwd [projectRoot; lit "data/.hidden/./x"]
  /\ exists d, In d (ALLOWED_DIRS cwd)
               /\ is_within d r = true
               /\ passes_dotdot_test (first_below d r) = true.
Proof.
  intros cwd r.
  assert (V : resolveAndValidatePath cwd (lit "data/.hidden/./x") = Return r)
    by (vm_compute; reflexivity).
  split; [exact V|].
  exact (proj1 (validate_accepts_iff cwd (lit "data/.hidden/./x") r) V).
Defined.

Lemma edit_step_lines_witness :
  let edit := mkEdit (lit "a") (lit "aa") in
  let st := mkEditState (lit "a") false [] in
  includes (lit "a") (oldText edit)
  && includes (replaceAll (lit "a") (lit "a") (lit "aa")) (oldText edit)
  && eqb (replaceAll (lit "a") (lit "a") (lit "aa"))
         (replaceAll (lit "a") (lit "a") (lit "aa")) = true
  /\ appliedEditsInfo (edit_step (lit "a") st edit) = [].
Proof.
  split; [reflexivity|].
  exact (proj1 (edit_step_lines (lit "a") (mkEditState (lit "a") false [])
                                (mkEdit (lit "a") (lit "aa"))) eq_refl).
Defined.

Lemma file_calls_within_allowed_witness :
  let cwd := lit "/home/project" in
  let file := lit "/home/project/data/n.txt" in
  let w := MemFs.start [] in
  let c := CallWriteFile file (lit "hello") in
  In c (calls (snd (write_file cwd (lit "data/n.txt") (lit "hello") w)))
  /\ (In c (calls w)
      \/ exists d, In d (ALLOWED_DIRS cwd) /\ is_within d file = true).
Proof.
  intros cwd file w c.
  assert (Hin : In c (calls (snd (write_file cwd (lit "data/n.txt") (lit "hello") w))))
    by (vm_compute; right; left; reflexivity).
  split; [exact Hin|].
  exact (proj1 (proj2 (proj2 (file_calls_within_allowed cwd w)))
               (lit "data/n.txt") (lit "hello") c file Hin
               (or_intror (ex_intro _ (lit "hello") eq_refl))).
Defined.

Lemma parent_directories_contained_witness :
  let cwd := lit "/home/project" in
  let w := MemFs.start [] in
  In (CallMkdir (lit "/home/project"))
     (calls (snd (write_file cwd (lit "data") (lit "x") w)))
  /\ (In (CallMkdir (lit "/home/project")) (calls w)
      \/ is_within (lit "/home/project/data") (lit "/home/project") = true
      \/ lit "/home/project" = lit "/home/project").
Proof.
  intros cwd w.
  assert (Hin : In (CallMkdir (lit "/home/project"))
                   (calls (snd (write_file cwd (lit "data") (lit "x") w))))
    by (vm_compute; left; reflexivity).
  split; [exact Hin|].
  exact (proj1 (parent_directories_contained cwd w)
               (lit "data") (lit "x") (lit "/home/project") Hin).
Defined.
